(** * frontend: a configuration-driven reverse-proxy gateway

    Shallow embedding of [frontend.go] and the properties of its request
    pipeline: the director's URL rewrite, the status-capturing response
    writer, the access-log middleware and the route table built by [main].

    Go strings are byte sequences and are modelled as [string] (a list of
    8-bit [ascii]); Go's [int] status codes and [time.Duration] are [Z].
    The library calls the program makes ([strings], [net/url], [net/http],
    [gorilla/mux], [logrus]) are modelled in modules of their own, each to
    the extent stated in its header. *)

From Stdlib Require Import String Ascii ZArith List Bool Lia.
From stdpp Require Import base gmap strings list.

Local Open Scope string_scope.

(** Outcome of a fallible call: Go's [(value, error)] pair. *)
Inductive result (E A : Type) : Type :=
| Ok (a : A)
| Err (e : E).
Arguments Ok {E A} a.
Arguments Err {E A} e.

(** ** Package [strings] *)

Module gostrings.

(** [s[:i]] and [s[i:]] for [i <= len(s)]. *)
Definition slice_to (i : nat) (s : string) : string := substring 0 i s.
Definition slice_from (i : nat) (s : string) : string :=
  substring i (String.length s - i) s.

(** [len(s) >= len(prefix) && s[:len(prefix)] == prefix] *)
Definition HasPrefix (s prefix : string) : bool :=
  (String.length prefix <=? String.length s)%nat
  && String.eqb (slice_to (String.length prefix) s) prefix.

Definition TrimPrefix (s prefix : string) : string :=
  if HasPrefix s prefix then slice_from (String.length prefix) s else s.

(** [len(s) >= len(suffix) && s[len(s)-len(suffix):] == suffix] *)
Definition HasSuffix (s suffix : string) : bool :=
  (String.length suffix <=? String.length s)%nat
  && String.eqb (slice_from (String.length s - String.length suffix) s) suffix.

(** [IndexByte]: index of the first [c] in [s], [None] for Go's -1. *)
Fixpoint IndexByte (s : string) (c : ascii) : option nat :=
  match s with
  | EmptyString => None
  | String a s' =>
      if Ascii.eqb a c then Some 0 else S <$> IndexByte s' c
  end.

(** [LastIndexByte]: index of the last [c] in [s]. *)
Fixpoint LastIndexByte (s : string) (c : ascii) : option nat :=
  match s with
  | EmptyString => None
  | String a s' =>
      match LastIndexByte s' c with
      | Some i => Some (S i)
      | None => if Ascii.eqb a c then Some 0 else None
      end
  end.

Definition ContainsByte (s : string) (c : ascii) : bool :=
  bool_decide (is_Some (IndexByte s c)).

(** Number of occurrences of the byte [c]. *)
Fixpoint CountByte (s : string) (c : ascii) : nat :=
  match s with
  | EmptyString => 0
  | String a s' => (if Ascii.eqb a c then 1 else 0) + CountByte s' c
  end.

(** [Cut] around the first occurrence of a one-byte separator. *)
Definition Cut (s : string) (sep : ascii) : string * string * bool :=
  match IndexByte s sep with
  | Some i => (slice_to i s, slice_from (S i) s, true)
  | None => (s, "", false)
  end.

Definition byte_between (lo hi c : ascii) : bool :=
  (nat_of_ascii lo <=? nat_of_ascii c)%nat
  && (nat_of_ascii c <=? nat_of_ascii hi)%nat.

(** [ToLower] on ASCII input: ['A'..'Z'] move to ['a'..'z']. *)
Definition lower_byte (c : ascii) : ascii :=
  if byte_between "A" "Z" c then ascii_of_nat (nat_of_ascii c + 32) else c.

Fixpoint ToLower (s : string) : string :=
  match s with
  | EmptyString => EmptyString
  | String a s' => String (lower_byte a) (ToLower s')
  end.

End gostrings.

(** ** Package [net/url]

    [Parse] follows the structure of Go's parser: cut the fragment, split
    the scheme, cut the query, then the opaque / authority / path split,
    with the errors of these steps. Hosts, ports and userinfo are taken
    as they stand, without validation, and percent-escapes are neither
    checked nor decoded: on a string with ["%"], ["@"], ["["], a byte
    that may not occur in a host, or a port that is not a number, Go's
    parser may reject or decode what [Parse] accepts as it is. The URLs
    parsed on concrete inputs below have none of these. *)

Module url.
Import gostrings.

Record URL : Type := mkURL {
  Scheme : string;
  Opaque : string;
  User : option string;
  Host : string;
  Path : string;
  ForceQuery : bool;
  RawQuery : string;
  Fragment : string
}.

Definition empty : URL := mkURL "" "" None "" "" false "" "".

Inductive Error : Type :=
| InvalidControlCharacter
| EmptyURL
| MissingProtocolScheme
| InvalidURIForRequest
| FirstPathSegmentColon.

(** [c < ' ' || c == 0x7f] for some byte of [s]. *)
Fixpoint stringContainsCTLByte (s : string) : bool :=
  match s with
  | EmptyString => false
  | String c s' =>
      (nat_of_ascii c <? 32)%nat || (nat_of_ascii c =? 127)%nat
      || stringContainsCTLByte s'
  end.

(** The loop of [getScheme]: [i] is the index of the first byte of
    [rest] within [rawURL]. *)
Fixpoint getScheme_loop (i : nat) (rest rawURL : string)
  : result Error (string * string) :=
  match rest with
  | EmptyString => Ok ("", rawURL)
  | String c rest' =>
      if byte_between "a" "z" c || byte_between "A" "Z" c then
        getScheme_loop (S i) rest' rawURL
      else if byte_between "0" "9" c || Ascii.eqb c "+"
              || Ascii.eqb c "-" || Ascii.eqb c "." then
        if (i =? 0)%nat then Ok ("", rawURL)
        else getScheme_loop (S i) rest' rawURL
      else if Ascii.eqb c ":" then
        if (i =? 0)%nat then Err MissingProtocolScheme
        else Ok (slice_to i rawURL, slice_from (S i) rawURL)
      else Ok ("", rawURL)
  end.

Definition getScheme (rawURL : string) : result Error (string * string) :=
  getScheme_loop 0 rawURL rawURL.

(** [parseAuthority]: userinfo before the last ["@"], host after it. *)
Definition parseAuthority (authority : string) : option string * string :=
  match LastIndexByte authority "@" with
  | None => (None, authority)
  | Some i => (Some (slice_to i authority), slice_from (S i) authority)
  end.

Definition parse (rawURL : string) (viaRequest : bool) : result Error URL :=
  if stringContainsCTLByte rawURL then Err InvalidControlCharacter
  else if String.eqb rawURL "" && viaRequest then Err EmptyURL
  else if String.eqb rawURL "*" then
    Ok (mkURL "" "" None "" "*" false "" "")
  else
    match getScheme rawURL with
    | Err e => Err e
    | Ok (scheme, rest) =>
        let scheme := ToLower scheme in
        let '(rest, rawQuery, forceQuery) :=
          if HasSuffix rest "?" && (CountByte rest "?" =? 1)%nat then
            (slice_to (String.length rest - 1) rest, "", true)
          else
            let '(before, after, _) := Cut rest "?" in
            (before, after, false) in
        if negb (HasPrefix rest "/") && negb (String.eqb scheme "") then
          (* rootless paths are opaque *)
          Ok (mkURL scheme rest None "" "" forceQuery rawQuery "")
        else if negb (HasPrefix rest "/") && viaRequest then
          Err InvalidURIForRequest
        else if negb (HasPrefix rest "/")
                && ContainsByte (Cut rest "/").1.1 ":" then
          Err FirstPathSegmentColon
        else
          let '(user, host, rest) :=
            if (negb (String.eqb scheme "")
                || negb viaRequest && negb (HasPrefix rest "///"))
               && HasPrefix rest "//" then
              let authority := slice_from 2 rest in
              let '(authority, rest) :=
                match IndexByte authority "/" with
                | Some i => (slice_to i authority, slice_from i authority)
                | None => (authority, "")
                end in
              let '(user, host) := parseAuthority authority in
              (user, host, rest)
            else (None, "", rest) in
          Ok (mkURL scheme "" user host rest forceQuery rawQuery "")
    end.

(** [Parse]: cut off ["#frag"], parse the rest as a general URL. *)
Definition Parse (rawURL : string) : result Error URL :=
  let '(u, frag, _) := Cut rawURL "#" in
  match parse u false with
  | Err e => Err e
  | Ok url =>
      Ok (mkURL (Scheme url) (Opaque url) (User url) (Host url) (Path url)
            (ForceQuery url) (RawQuery url) frag)
  end.

(** [ParseRequestURI]: what the HTTP server applies to the request
    target; no fragment is cut. *)
Definition ParseRequestURI (rawURL : string) : result Error URL :=
  parse rawURL true.

End url.

(** ** Package [net/http]: headers, requests, status texts *)

Module http.

(** [http.Header], a [map[string][]string] keyed by canonical names. *)
Abbreviation Header := (gmap string (list string)).

(** [Header.Get] for a key already in canonical form, as the constant
    ["X-Request-Id"] is: the first value, or [""]. *)
Definition Get (h : Header) (key : string) : string :=
  match h !! key with
  | Some (v :: _) => v
  | _ => ""
  end.

Record Request : Type := mkRequest {
  Method : string;
  URL : url.URL;
  Header_ : Header;
  RemoteAddr : string;
  RequestURI : string
}.

(** [http.StatusText]: the reason phrase of a known status code, [""]
    for any other. *)
Definition StatusText (code : Z) : string :=
  match code with
  | 100 => "Continue"
  | 101 => "Switching Protocols"
  | 102 => "Processing"
  | 103 => "Early Hints"
  | 200 => "OK"
  | 201 => "Created"
  | 202 => "Accepted"
  | 203 => "Non-Authoritative Information"
  | 204 => "No Content"
  | 205 => "Reset Content"
  | 206 => "Partial Content"
  | 207 => "Multi-Status"
  | 208 => "Already Reported"
  | 226 => "IM Used"
  | 300 => "Multiple Choices"
  | 301 => "Moved Permanently"
  | 302 => "Found"
  | 303 => "See Other"
  | 304 => "Not Modified"
  | 305 => "Use Proxy"
  | 307 => "Temporary Redirect"
  | 308 => "Permanent Redirect"
  | 400 => "Bad Request"
  | 401 => "Unauthorized"
  | 402 => "Payment Required"
  | 403 => "Forbidden"
  | 404 => "Not Found"
  | 405 => "Method Not Allowed"
  | 406 => "Not Acceptable"
  | 407 => "Proxy Authentication Required"
  | 408 => "Request Timeout"
  | 409 => "Conflict"
  | 410 => "Gone"
  | 411 => "Length Required"
  | 412 => "Precondition Failed"
  | 413 => "Request Entity Too Large"
  | 414 => "Request URI Too Long"
  | 415 => "Unsupported Media Type"
  | 416 => "Requested Range Not Satisfiable"
  | 417 => "Expectation Failed"
  | 418 => "I'm a teapot"
  | 421 => "Misdirected Request"
  | 422 => "Unprocessable Entity"
  | 423 => "Locked"
  | 424 => "Failed Dependency"
  | 425 => "Too Early"
  | 426 => "Upgrade Required"
  | 428 => "Precondition Required"
  | 429 => "Too Many Requests"
  | 431 => "Request Header Fields Too Large"
  | 451 => "Unavailable For Legal Reasons"
  | 500 => "Internal Server Error"
  | 501 => "Not Implemented"
  | 502 => "Bad Gateway"
  | 503 => "Service Unavailable"
  | 504 => "Gateway Timeout"
  | 505 => "HTTP Version Not Supported"
  | 506 => "Variant Also Negotiates"
  | 507 => "Insufficient Storage"
  | 508 => "Loop Detected"
  | 510 => "Not Extended"
  | 511 => "Network Authentication Required"
  | _ => ""
  end%Z.

(** The request the server hands to its handler for a request line
    [method target]: [URL] is the parsed target, [RequestURI] the
    target as received. *)
Definition ReadRequest (method target remote : string) (h : Header)
  : result url.Error Request :=
  match url.ParseRequestURI target with
  | Err e => Err e
  | Ok u => Ok (mkRequest method u h remote target)
  end.

(** The interface [http.ResponseWriter] over a writer state [W].
    [Header()] returns the writer's own map, not a copy: reading is
    [rw_Header], and what a handler does to the returned map is done to
    the writer, [rw_Header_update]. [Write] returns [(n, err)]. *)
Class ResponseWriter (W : Type) : Type := {
  rw_Header : W -> Header;
  rw_Header_update : (Header -> Header) -> W -> W;
  rw_Write : string -> W -> W * (Z * option string);
  rw_WriteHeader : Z -> W -> W
}.

End http.

(** ** [frontend.go]: the rewriting reverse proxy *)

Import gostrings.

(** The variables the [director] closure captures. Go closures capture
    variables by reference: a call receives the cells and hands them back
    as its body leaves them. *)
Record directorClosure : Type := mkDirector {
  basePath : string;
  target : url.URL;
  targetQuery : string
}.

Definition set_URL (u : url.URL) (req : http.Request) : http.Request :=
  http.mkRequest (http.Method req) u (http.Header_ req)
    (http.RemoteAddr req) (http.RequestURI req).

Definition set_Scheme (v : string) (u : url.URL) : url.URL :=
  url.mkURL v (url.Opaque u) (url.User u) (url.Host u) (url.Path u)
    (url.ForceQuery u) (url.RawQuery u) (url.Fragment u).

Definition set_Host (v : string) (u : url.URL) : url.URL :=
  url.mkURL (url.Scheme u) (url.Opaque u) (url.User u) v (url.Path u)
    (url.ForceQuery u) (url.RawQuery u) (url.Fragment u).

Definition set_Path (v : string) (u : url.URL) : url.URL :=
  url.mkURL (url.Scheme u) (url.Opaque u) (url.User u) (url.Host u) v
    (url.ForceQuery u) (url.RawQuery u) (url.Fragment u).

Definition set_RawQuery (v : string) (u : url.URL) : url.URL :=
  url.mkURL (url.Scheme u) (url.Opaque u) (url.User u) (url.Host u)
    (url.Path u) (url.ForceQuery u) v (url.Fragment u).

(** The body of [director := func(req *http.Request) { ... }], one
    assignment to [req.URL] per line. *)
Definition director (c : directorClosure) (req : http.Request)
  : directorClosure * http.Request :=
  let u := http.URL req in
  let u := set_Scheme (url.Scheme (target c)) u in
  let u := set_Host (url.Host (target c)) u in
  let u := set_Path (TrimPrefix (url.Path u) (basePath c)) u in
  let u :=
    if String.eqb (targetQuery c) "" || String.eqb (url.RawQuery u) "" then
      set_RawQuery (targetQuery c +:+ url.RawQuery u) u
    else
      set_RawQuery (targetQuery c +:+ "&" +:+ url.RawQuery u) u in
  (c, set_URL u req).

(** [httputil.ReverseProxy], of which the program sets [Director]. *)
Record ReverseProxy : Type := mkReverseProxy {
  Director : directorClosure
}.

(** [Err e] stands for [log.Fatal(err)]: the process exits. *)
Definition NewRewriteReverseProxy (basePath redirectUrl : string)
  : result url.Error ReverseProxy :=
  match url.Parse redirectUrl with
  | Err err => Err err
  | Ok target =>
      let targetQuery := url.RawQuery target in
      Ok (mkReverseProxy (mkDirector basePath target targetQuery))
  end.

(** The request as the proxy sends it on: the director applied to it. *)
Definition rewrite (p : ReverseProxy) (req : http.Request) : http.Request :=
  (director (Director p) req).2.

(** Requests served one after the other by the same proxy; the closure
    left by one call is the one the next call runs with. *)
Fixpoint serve_all (c : directorClosure) (reqs : list http.Request)
  : directorClosure * list http.Request :=
  match reqs with
  | [] => (c, [])
  | req :: reqs' =>
      let '(c1, out) := director c req in
      let '(c2, outs) := serve_all c1 reqs' in
      (c2, out :: outs)
  end.

(** ** [frontend.go]: the status-capturing response writer *)

Record StatusLoggingResponseWriter (W : Type) : Type := mkStatusLogging {
  status : Z;
  ResponseWriter : W
}.
Arguments mkStatusLogging {W} status ResponseWriter.
Arguments status {W} s.
Arguments ResponseWriter {W} s.

Section StatusLogging.
Context {W : Type} `{!http.ResponseWriter W}.

(** Default the status code to 200. *)
Definition NewStatusLoggingResponseWriter (res : W)
  : StatusLoggingResponseWriter W :=
  mkStatusLogging 200 res.

Definition Status (w : StatusLoggingResponseWriter W) : Z := status w.

Definition Header (w : StatusLoggingResponseWriter W) : http.Header :=
  http.rw_Header (ResponseWriter w).

(** The map [Header] returns is the embedded writer's own: an update
    made through it lands there. *)
Definition Header_update (f : http.Header -> http.Header)
    (w : StatusLoggingResponseWriter W) : StatusLoggingResponseWriter W :=
  mkStatusLogging (status w) (http.rw_Header_update f (ResponseWriter w)).

Definition Write (data : string) (w : StatusLoggingResponseWriter W)
  : StatusLoggingResponseWriter W * (Z * option string) :=
  let '(res, r) := http.rw_Write data (ResponseWriter w) in
  (mkStatusLogging (status w) res, r).

Definition WriteHeader (statusCode : Z) (w : StatusLoggingResponseWriter W)
  : StatusLoggingResponseWriter W :=
  (* Store the status code. *)
  let w := mkStatusLogging statusCode (ResponseWriter w) in
  (* Write the status code onward. *)
  mkStatusLogging (status w)
    (http.rw_WriteHeader statusCode (ResponseWriter w)).

(** Satisfy the [http.ResponseWriter] interface. *)
#[export] Instance StatusLogging_ResponseWriter
  : http.ResponseWriter (StatusLoggingResponseWriter W) := {
  http.rw_Header := Header;
  http.rw_Header_update := Header_update;
  http.rw_Write := Write;
  http.rw_WriteHeader := WriteHeader
}.
End StatusLogging.

(** ** Package [logrus]: entries with fields, written to a sink *)

Module logrus.

(** The field values this program logs. *)
Inductive Value : Type :=
| VString (s : string)
| VInt (n : Z)
| VDuration (d : Z).

Abbreviation Fields := (gmap string Value).

Inductive Level : Type :=
| PanicLevel | FatalLevel | ErrorLevel | WarnLevel | InfoLevel | DebugLevel.

Record Entry : Type := mkEntry {
  Data : Fields;
  Level_ : Level;
  Message : string
}.

(** [log.WithFields(fields)] on the standard logger. *)
Definition WithFields (fields : Fields) : Entry :=
  mkEntry fields PanicLevel "".

(** [entry.WithField(key, value)]: a new entry, the old fields and the
    new one, the new one winning on its key. *)
Definition WithField (key : string) (value : Value) (entry : Entry) : Entry :=
  mkEntry (<[key := value]> (Data entry)) (Level_ entry) (Message entry).

(** [entry.Info(msg)] with the logger at its default level [InfoLevel]:
    the entry goes to the sink. *)
Definition Info (msg : string) (entry : Entry) (sink : list Entry)
  : list Entry :=
  sink ++ [mkEntry (Data entry) InfoLevel msg].

End logrus.

(** ** Handlers

    What a handler does with the [http.ResponseWriter] it is given, as a
    tree of calls: the handler sees the writer only through the interface,
    and what it does next may depend on what the calls return. Besides
    the writer a handler sees the clock (time passes while it runs) and
    the log sink. A handler of this program ([proxy.ServeHTTP]) works on
    a copy of the request and leaves [RequestURI], [Method], [RemoteAddr]
    and [Header] of the request it was given as they were, so the request
    is passed by value. *)

Inductive handlerProg : Type :=
| Return
| Panic (v : string)
| CallHeader (k : http.Header -> handlerProg)
| CallHeaderUpdate (f : http.Header -> http.Header) (next : handlerProg)
| CallWrite (data : string) (k : Z * option string -> handlerProg)
| CallWriteHeader (statusCode : Z) (next : handlerProg)
| Elapse (d : Z) (next : handlerProg)
| Log (entry : logrus.Entry) (next : handlerProg).

Abbreviation Handler := (http.Request -> handlerProg).

(** The clock ([time.Now], in nanoseconds) and the log sink. *)
Record World : Type := mkWorld {
  now : Z;
  sink : list logrus.Entry
}.

Inductive outcome (A : Type) : Type :=
| Returned (a : A)
| Panicked (v : string).
Arguments Returned {A} a.
Arguments Panicked {A} v.

Section Exec.
Context {W : Type} `{!http.ResponseWriter W}.

(** Running a handler against a writer. *)
Fixpoint exec (p : handlerProg) (w : W) (σ : World) : outcome (W * World) :=
  match p with
  | Return => Returned (w, σ)
  | Panic v => Panicked v
  | CallHeader k => exec (k (http.rw_Header w)) w σ
  | CallHeaderUpdate f next => exec next (http.rw_Header_update f w) σ
  | CallWrite data k =>
      let '(w', r) := http.rw_Write data w in exec (k r) w' σ
  | CallWriteHeader statusCode next =>
      exec next (http.rw_WriteHeader statusCode w) σ
  | Elapse d next => exec next w (mkWorld (now σ + d) (sink σ))
  | Log entry next => exec next w (mkWorld (now σ) (sink σ ++ [entry]))
  end.

(** The status codes the handler passes to [WriteHeader], in order, on
    the run against [w]. *)
Fixpoint statusCodes (p : handlerProg) (w : W) : list Z :=
  match p with
  | Return => []
  | Panic v => []
  | CallHeader k => statusCodes (k (http.rw_Header w)) w
  | CallHeaderUpdate f next => statusCodes next (http.rw_Header_update f w)
  | CallWrite data k =>
      let '(w', r) := http.rw_Write data w in statusCodes (k r) w'
  | CallWriteHeader statusCode next =>
      statusCode :: statusCodes next (http.rw_WriteHeader statusCode w)
  | Elapse d next => statusCodes next w
  | Log entry next => statusCodes next w
  end.
End Exec.

(** ** [frontend.go]: the access-log middleware *)

Section Logrus.
Context {W : Type} `{!http.ResponseWriter W}.

Definition NewLogrusHandler (handler : Handler) (rw : W) (r : http.Request)
    (σ : World) : outcome (W * World) :=
  let start := now σ in
  let loggingWriter := NewStatusLoggingResponseWriter rw in
  match exec (handler r) loggingWriter σ with
  | Panicked v => Panicked v
  | Returned (loggingWriter, σ) =>
      let latency := (now σ - start)%Z in
      let entry := logrus.WithFields
        (<["request" := logrus.VString (http.RequestURI r)]>
        (<["method" := logrus.VString (http.Method r)]>
        (<["remote" := logrus.VString (http.RemoteAddr r)]>
        (<["status" := logrus.VInt (Status loggingWriter)]>
        (<["text_status" :=
             logrus.VString (http.StatusText (Status loggingWriter))]>
        (<["latency" := logrus.VDuration latency]> ∅)))))) in
      let reqID := http.Get (http.Header_ r) "X-Request-Id" in
      let entry :=
        if negb (String.eqb reqID "") then
          logrus.WithField "request_id" (logrus.VString reqID) entry
        else entry in
      Returned (ResponseWriter loggingWriter,
                mkWorld (now σ)
                  (logrus.Info "completed handling request" entry (sink σ)))
  end.
End Logrus.

(** ** Package [path]: [Clean] *)

Module path.

(** The output buffer of [Clean] is kept last byte first. *)

(** [for out.w > dotdot && out.index(out.w) != '/' { out.w-- }], entered
    after a first [out.w--]: [dropped] is the byte at index [out.w]. *)
Fixpoint backtrack (out : list ascii) (dropped : ascii) (dotdot : nat)
  : list ascii :=
  match out with
  | [] => []
  | c :: out' =>
      if (dotdot <? length out)%nat && negb (Ascii.eqb dropped "/")
      then backtrack out' c dotdot
      else out
  end.

(** [for ; r < n && path[r] != '/'; r++ { out.append(path[r]) }], on
    [rest = path[r:]]. *)
Fixpoint copy_segment (rest : string) (r : nat) (out : list ascii)
  : nat * list ascii :=
  match rest with
  | EmptyString => (r, out)
  | String c rest' =>
      if Ascii.eqb c "/" then (r, out)
      else copy_segment rest' (S r) (c :: out)
  end.

Definition byte_is (p : string) (i : nat) (c : ascii) : bool :=
  match String.get i p with
  | Some a => Ascii.eqb a c
  | None => false
  end.

(** The loop [for r < n { switch ... }]; every round advances [r], so
    [n] rounds are enough. *)
Fixpoint Clean_loop (rounds : nat) (p : string) (n : nat) (rooted : bool)
    (r : nat) (out : list ascii) (dotdot : nat) : list ascii :=
  match rounds with
  | O => out
  | S rounds =>
      if negb (r <? n)%nat then out
      else if byte_is p r "/" then
        (* empty path element *)
        Clean_loop rounds p n rooted (r + 1) out dotdot
      else if byte_is p r "."
              && ((r + 1 =? n)%nat || byte_is p (r + 1) "/") then
        (* . element *)
        Clean_loop rounds p n rooted (r + 1) out dotdot
      else if byte_is p r "." && byte_is p (r + 1) "."
              && ((r + 2 =? n)%nat || byte_is p (r + 2) "/") then
        (* .. element: remove to last / *)
        let r := r + 2 in
        if (dotdot <? length out)%nat then
          match out with
          | c :: out' =>
              Clean_loop rounds p n rooted r (backtrack out' c dotdot) dotdot
          | [] => Clean_loop rounds p n rooted r out dotdot
          end
        else if negb rooted then
          (* cannot backtrack, but not rooted, so append .. element *)
          let out :=
            if (0 <? length out)%nat then "/"%char :: out else out in
          let out := "."%char :: "."%char :: out in
          Clean_loop rounds p n rooted r out (length out)
        else Clean_loop rounds p n rooted r out dotdot
      else
        (* real path element: add slash if needed, copy element *)
        let out :=
          if rooted && negb (length out =? 1)%nat
             || negb rooted && negb (length out =? 0)%nat
          then "/"%char :: out else out in
        let '(r, out) := copy_segment (gostrings.slice_from r p) r out in
        Clean_loop rounds p n rooted r out dotdot
  end.

Definition Clean (p : string) : string :=
  if String.eqb p "" then "."
  else
    let rooted := byte_is p 0 "/" in
    let n := String.length p in
    let out :=
      if rooted then Clean_loop n p n rooted 1 ["/"%char] 1
      else Clean_loop n p n rooted 0 [] 0 in
    (* turn empty string into "." *)
    if (length out =? 0)%nat then "."
    else string_of_list_ascii (rev out).

End path.

(** ** Package [gorilla/mux]: path-prefix routes

    A router is the list of its routes in the order they were added, and
    the first route that matches serves the request. The handler type [H]
    is left open. The regexp of a path-prefix route whose template holds
    no ["{"] and ["}"] is the quoted template anchored at the start, which
    matches the paths the template is a prefix of; route variables are not
    modelled, and the routing properties are stated for templates
    without braces ([literal]). *)

Module mux.
Section Router.
Context {H : Type}.

Record Route : Type := mkRoute {
  template : string;
  handler : H
}.

Definition Router : Type := list Route.

Definition NewRouter : Router := [].

(** [r.NewRoute().PathPrefix(tpl).Handler(h)] *)
Definition PathPrefix_Handler (r : Router) (tpl : string) (h : H)
  : Router :=
  (r ++ [mkRoute tpl h])%list.

Definition Route_Match (rt : Route) (path : string) : bool :=
  gostrings.HasPrefix path (template rt).

(** [Router.Match]: the first route that matches. *)
Fixpoint Match (r : Router) (path : string) : option Route :=
  match r with
  | [] => None
  | rt :: r' => if Route_Match rt path then Some rt else Match r' path
  end.

Definition cleanPath (p : string) : string :=
  if String.eqb p "" then "/"
  else
    let p := if negb (path.byte_is p 0 "/") then "/" +:+ p else p in
    let np := path.Clean p in
    (* path.Clean removes trailing slash except for root;
       put the trailing slash back if necessary. *)
    if path.byte_is p (String.length p - 1) "/"
       && negb (String.eqb np "/")
    then np +:+ "/" else np.

Inductive served : Type :=
| Redirect (location : string)
| Dispatch (h : H)
| NotFound.

(** [Router.ServeHTTP]: a path that is not in canonical form is
    answered with a redirect to its canonical form; otherwise the
    handler of the matching route runs, or the not-found handler. *)
Definition ServeHTTP (r : Router) (path : string) : served :=
  if negb (String.eqb (cleanPath path) path) then Redirect (cleanPath path)
  else
    match Match r path with
    | Some rt => Dispatch (handler rt)
    | None => NotFound
    end.
End Router.
Arguments Route H : clear implicits.
Arguments Router H : clear implicits.
Arguments served H : clear implicits.

(** No route variable in the template. *)
Definition literal (tpl : string) : bool :=
  negb (gostrings.ContainsByte tpl "{")
  && negb (gostrings.ContainsByte tpl "}").
End mux.

(** ** [frontend.go]: [main] *)

Record Config : Type := mkConfig {
  Routes : gmap string string
}.

(** [range config.Routes] visits every entry once, in an order Go leaves
    unspecified: [order] is one such order. *)
Definition range_of (m : gmap string string) (order : list (string * string))
  : Prop :=
  order ≡ₚ map_to_list m.

(** The loop over the routes of the configuration. The handler a route
    is registered with is [NewCombinedHandler(proxy.ServeHTTP)], the
    proxy behind the CORS and logging middleware; the route table keeps
    the proxy. The router's [StrictSlash(true)] bears on exact-path
    routes only and not on the path-prefix routes added here. *)
Fixpoint main_loop (r : mux.Router ReverseProxy)
    (order : list (string * string))
  : result url.Error (mux.Router ReverseProxy) :=
  match order with
  | [] => Ok r
  | (base, redirectPath) :: order' =>
      match NewRewriteReverseProxy ("/" +:+ base) redirectPath with
      | Err err => Err err
      | Ok proxy =>
          main_loop (mux.PathPrefix_Handler r ("/" +:+ base +:+ "/") proxy)
            order'
      end
  end.

(** [main] up to [graceful.Run]: [Ok r] is the router that is served,
    [Err] the process exiting in [log.Fatal] before it listens. *)
Definition main (order : list (string * string))
  : result url.Error (mux.Router ReverseProxy) :=
  main_loop mux.NewRouter order.

(** The backend of a route whose URL parses, and the route [main] adds
    for an entry of the configuration. *)
Definition backend_of (redirectPath : string) : url.URL :=
  match url.Parse redirectPath with
  | Ok backend => backend
  | Err _ => url.empty
  end.

Definition proxy_of (entry : string * string) : ReverseProxy :=
  mkReverseProxy
    (mkDirector ("/" +:+ entry.1) (backend_of entry.2)
       (url.RawQuery (backend_of entry.2))).

Definition route_of (entry : string * string) : mux.Route ReverseProxy :=
  mux.mkRoute ("/" +:+ entry.1 +:+ "/") (proxy_of entry).

(** Following the spec's words: a backend URL string is an absolute URL
    when it parses and has both a scheme and a host. *)
Definition absolute_URL (redirectPath : string) : bool :=
  match url.Parse redirectPath with
  | Ok u => negb (String.eqb (url.Scheme u) "")
            && negb (String.eqb (url.Host u) "")
  | Err _ => false
  end.

(** What the gateway sends to the backend for a request, if the router
    dispatches it to a proxy. *)
Definition forwarded (r : mux.Router ReverseProxy) (req : http.Request)
  : option http.Request :=
  match mux.ServeHTTP r (url.Path (http.URL req)) with
  | mux.Dispatch proxy => Some (rewrite proxy req)
  | _ => None
  end.


(** ** A recording response writer

    A writer that keeps its header map and the calls it received, in
    order: what a test double for [http.ResponseWriter] records. *)

Inductive event : Type :=
| WroteHeader (statusCode : Z)
| Wrote (data : string).

Record recorder : Type := mkRecorder {
  headers : http.Header;
  events : list event
}.

#[export] Instance recorder_ResponseWriter : http.ResponseWriter recorder := {
  http.rw_Header := headers;
  http.rw_Header_update f r := mkRecorder (f (headers r)) (events r);
  http.rw_Write data r :=
    (mkRecorder (headers r) (events r ++ [Wrote data]),
     (Z.of_nat (String.length data), None));
  http.rw_WriteHeader statusCode r :=
    mkRecorder (headers r) (events r ++ [WroteHeader statusCode])
}.

(** A handler that answers 404 and then, by mistake, sets 500 and writes
    a body; and one that only writes a body. *)
Definition twice_handler : handlerProg :=
  CallWriteHeader 404 (CallWriteHeader 500
    (CallWrite "not found" (fun _ => Return))).

Definition body_handler : handlerProg :=
  CallHeaderUpdate (fun h => <["Content-Type" := ["text/plain"]]> h)
    (CallWrite "hello" (fun _ => Elapse 5 Return)).

Definition fresh_recorder : recorder := mkRecorder ∅ [].


(** A configuration whose only backend URL lacks the scheme, and one
    with a route name that extends another. *)
Definition schemeless_config : Config :=
  mkConfig {["svc" := "backend.local/base"]}.

Definition nested_config : Config :=
  mkConfig (<["a" := "http://one.local"]>
              (<["a/b" := "http://two.local"]> ∅)).

Definition nested_order : list (string * string) :=
  [("a", "http://one.local"); ("a/b", "http://two.local")].

Definition api_order : list (string * string) :=
  [("api", "http://backend.local:9000")].

(** [svc_request] carrying a request id. *)
Definition traced_request : http.Request :=
  http.mkRequest "GET"
    (url.mkURL "" "" None "" "/svc/items" false "page=2" "")
    {["X-Request-Id" := ["req-42"]]} "192.0.2.1:4000" "/svc/items?page=2".

Definition world0 : World := mkWorld 1000 [].

(** ** A sample configuration

    One route, [svc], to a backend with a static query, and the request
    [GET /svc/items?page=2] as the server reads it. *)

Definition svc_url : string := "http://backend.local:9000/base?key=abc".

Definition svc_backend : url.URL :=
  url.mkURL "http" "" None "backend.local:9000" "/base" false "key=abc" "".

Definition svc_proxy : ReverseProxy :=
  mkReverseProxy (mkDirector "/svc" svc_backend "key=abc").

Definition svc_request : http.Request :=
  http.mkRequest "GET"
    (url.mkURL "" "" None "" "/svc/items" false "page=2" "")
    ∅ "192.0.2.1:4000" "/svc/items?page=2".

(** ** Notions used to state further properties *)

(** The query the director assigns to [req.URL.RawQuery], as a function
    of the two queries. *)
Definition mergeQuery (targetQuery rawQuery : string) : string :=
  if String.eqb targetQuery "" || String.eqb rawQuery "" then
    targetQuery +:+ rawQuery
  else
    targetQuery +:+ "&" +:+ rawQuery.

(** The record [NewLogrusHandler] writes for a request, given the status
    it read from the logging writer and the latency it measured. *)
Definition access_entry (r : http.Request) (status latency : Z)
  : logrus.Entry :=
  let fields : logrus.Fields :=
    <["request" := logrus.VString (http.RequestURI r)]>
    (<["method" := logrus.VString (http.Method r)]>
    (<["remote" := logrus.VString (http.RemoteAddr r)]>
    (<["status" := logrus.VInt status]>
    (<["text_status" := logrus.VString (http.StatusText status)]>
    (<["latency" := logrus.VDuration latency]> ∅))))) in
  let reqID := http.Get (http.Header_ r) "X-Request-Id" in
  logrus.mkEntry
    (if negb (String.eqb reqID "") then
       <["request_id" := logrus.VString reqID]> fields
     else fields)
    logrus.InfoLevel "completed handling request".

(** A route name of one path segment: no ["/"] in it. *)
Definition slash_free (name : string) : bool :=
  negb (ContainsByte name "/").

(** The prefix [main] registers for an entry of the configuration. *)
Definition prefix_of (entry : string * string) : string :=
  "/" +:+ entry.1 +:+ "/".

(** A second proxy, for a gateway placed in front of [svc_proxy], and a
    closure that differs from that of [svc_proxy] in the backend's path,
    userinfo and fragment only. *)
Definition edge_closure : directorClosure :=
  mkDirector "/edge"
    (url.mkURL "https" "" None "gateway.local" "" false "tenant=7" "")
    "tenant=7".

Definition svc_closure_other_path : directorClosure :=
  mkDirector "/svc"
    (url.mkURL "http" "" (Some "user") "backend.local:9000" "/elsewhere"
       false "key=abc" "top")
    "key=abc".

(** An order of a configuration whose second backend URL does not parse,
    and a configuration of one-segment route names. *)
Definition failing_order : list (string * string) :=
  [("a", "http://one.local"); ("b", ":9000"); ("c", ":8000")].

Definition flat_config : Config :=
  mkConfig (<["api" := "http://one.local"]>
              (<["apikey" := "http://two.local"]> ∅)).

Definition flat_order : list (string * string) :=
  [("apikey", "http://two.local"); ("api", "http://one.local")].

Definition flat_order' : list (string * string) :=
  [("api", "http://one.local"); ("apikey", "http://two.local")].

(** A request with two values for [X-Request-Id], the first one empty. *)
Definition blank_id_request : http.Request :=
  http.mkRequest "GET"
    (url.mkURL "" "" None "" "/svc/items" false "" "")
    {["X-Request-Id" := [""; "req-43"]]} "192.0.2.1:4000" "/svc/items".

(** ** Optional writer interfaces and panicking handlers

    Besides the three methods of [http.ResponseWriter] a handler can ask
    whether the writer it was given is also an [http.Flusher], with the
    type assertion [rw.(http.Flusher)]. What the assertion finds is
    decided by the method set of the writer's type: [as_Flusher] is
    [Some flush] for a type that has a [Flush] method and [None] for one
    that has not. *)

Class MaybeFlusher (W : Type) : Type := {
  as_Flusher : option (W -> W)
}.

(** [*StatusLoggingResponseWriter] has the methods [Status], [Header],
    [Write] and [WriteHeader]; the field it embeds is of the interface
    type [http.ResponseWriter], which promotes the methods of that
    interface and no others. It has no [Flush]. *)
#[export] Instance StatusLogging_MaybeFlusher {W : Type}
  : MaybeFlusher (StatusLoggingResponseWriter W) := {
  as_Flusher := None
}.

(** [if f, ok := rw.(http.Flusher); ok { f.Flush() }] *)
Definition flush_if_Flusher {W : Type} `{!MaybeFlusher W} (w : W) : W :=
  match as_Flusher with
  | Some flush => flush w
  | None => w
  end.

(** A handler that streams: stretches of calls on the writer, with a
    flush, where the writer is a Flusher, after each stretch but the
    last. *)
Inductive streamingProg : Type :=
| StreamEnd (p : handlerProg)
| StreamFlush (p : handlerProg) (next : streamingProg).

Fixpoint exec_streaming {W : Type} `{!http.ResponseWriter W}
    `{!MaybeFlusher W} (p : streamingProg) (w : W) (σ : World)
  : outcome (W * World) :=
  match p with
  | StreamEnd p => exec p w σ
  | StreamFlush p next =>
      match exec p w σ with
      | Returned (w', σ') => exec_streaming next (flush_if_Flusher w') σ'
      | Panicked v => Panicked v
      end
  end.

(** One handler after another: [q] runs where [p] returns. *)
Fixpoint andThen (p q : handlerProg) : handlerProg :=
  match p with
  | Return => q
  | Panic v => Panic v
  | CallHeader k => CallHeader (fun h => andThen (k h) q)
  | CallHeaderUpdate f next => CallHeaderUpdate f (andThen next q)
  | CallWrite data k => CallWrite data (fun r => andThen (k r) q)
  | CallWriteHeader statusCode next =>
      CallWriteHeader statusCode (andThen next q)
  | Elapse d next => Elapse d (andThen next q)
  | Log entry next => Log entry (andThen next q)
  end.

(** The calls of a streaming handler, its flushes left out. *)
Fixpoint calls_only (p : streamingProg) : handlerProg :=
  match p with
  | StreamEnd p => p
  | StreamFlush p next => andThen p (calls_only next)
  end.

(** A writer that holds the body bytes written to it in a buffer and
    puts them on the wire when it is flushed, as the buffered connection
    of a server does; it is a Flusher. *)
Record bufferedWriter : Type := mkBuffered {
  bw_headers : http.Header;
  bw_codes : list Z;
  bw_buffer : string;
  bw_wire : string
}.

#[export] Instance bufferedWriter_ResponseWriter
  : http.ResponseWriter bufferedWriter := {
  http.rw_Header := bw_headers;
  http.rw_Header_update f w :=
    mkBuffered (f (bw_headers w)) (bw_codes w) (bw_buffer w) (bw_wire w);
  http.rw_Write data w :=
    (mkBuffered (bw_headers w) (bw_codes w) (bw_buffer w +:+ data)
       (bw_wire w),
     (Z.of_nat (String.length data), None));
  http.rw_WriteHeader statusCode w :=
    mkBuffered (bw_headers w) (bw_codes w ++ [statusCode]) (bw_buffer w)
      (bw_wire w)
}.

#[export] Instance bufferedWriter_MaybeFlusher : MaybeFlusher bufferedWriter
  := {
  as_Flusher :=
    Some (fun w =>
            mkBuffered (bw_headers w) (bw_codes w) ""
              (bw_wire w +:+ bw_buffer w))
}.

Definition fresh_buffered : bufferedWriter := mkBuffered ∅ [] "" "".

(** A handler that writes an event and flushes it, as one serving a
    stream of events does. *)
Definition event_handler : streamingProg :=
  StreamFlush (CallWrite "tick" (fun _ => Return)) (StreamEnd Return).


(** * Properties *)

(** ** Strings *)

Section StringFacts.
Import gostrings.

Lemma length_app (a b : string) :
  String.length (a +:+ b) = String.length a + String.length b.
Proof. induction a as [|c a IH]; simpl; [reflexivity | now rewrite IH]. Qed.

Lemma substring_whole (s : string) : substring 0 (String.length s) s = s.
Proof. induction s as [|c s IH]; simpl; [reflexivity | now rewrite IH]. Qed.

Lemma slice_to_app (p r : string) : slice_to (String.length p) (p +:+ r) = p.
Proof.
  unfold slice_to. induction p as [|c p IH]; simpl.
  - destruct r; reflexivity.
  - now rewrite IH.
Qed.

Lemma slice_from_app (p r : string) :
  slice_from (String.length p) (p +:+ r) = r.
Proof.
  unfold slice_from. rewrite length_app.
  replace (String.length p + String.length r - String.length p)
    with (String.length r) by lia.
  induction p as [|c p IH]; simpl; [apply substring_whole | exact IH].
Qed.

Lemma slice_to_from (n : nat) (s : string) :
  n <= String.length s -> slice_to n s +:+ slice_from n s = s.
Proof.
  unfold slice_to, slice_from. revert n.
  induction s as [|c s IH]; intros [|n] Hn; simpl in *;
    try reflexivity; try lia.
  - now rewrite substring_whole.
  - change (String c (substring 0 n s +:+ substring n (String.length s - n) s)
            = String c s).
    f_equal. apply IH. lia.
Qed.

Lemma HasPrefix_app (p r : string) : HasPrefix (p +:+ r) p = true.
Proof.
  unfold HasPrefix. rewrite slice_to_app, String.eqb_refl, length_app.
  rewrite andb_true_r. apply Nat.leb_le. lia.
Qed.

Lemma HasPrefix_true (s p : string) :
  HasPrefix s p = true <-> exists r, s = p +:+ r.
Proof.
  split.
  - unfold HasPrefix. intros [Hlen Heq]%andb_true_iff.
    apply Nat.leb_le in Hlen. apply String.eqb_eq in Heq.
    exists (slice_from (String.length p) s).
    rewrite <- Heq at 1. symmetry. now apply slice_to_from.
  - intros [r ->]. apply HasPrefix_app.
Qed.

Lemma TrimPrefix_app (p r : string) : TrimPrefix (p +:+ r) p = r.
Proof. unfold TrimPrefix. now rewrite HasPrefix_app, slice_from_app. Qed.

Lemma TrimPrefix_prefix (s p : string) :
  HasPrefix s p = true -> s = p +:+ TrimPrefix s p.
Proof.
  intros [r ->]%HasPrefix_true. now rewrite TrimPrefix_app.
Qed.

Lemma TrimPrefix_other (s p : string) :
  HasPrefix s p = false -> TrimPrefix s p = s.
Proof. unfold TrimPrefix. now intros ->. Qed.

Lemma eqb_empty_false (s : string) : s <> "" -> String.eqb s "" = false.
Proof. intros H. now apply String.eqb_neq. Qed.

Lemma app_empty_r (s : string) : s +:+ "" = s.
Proof.
  induction s as [|c s IH]; [reflexivity |].
  change (String c (s +:+ "") = String c s). now f_equal.
Qed.
End StringFacts.

(** ** The director *)

Section DirectorFacts.
Import gostrings.

Lemma director_Scheme c req :
  url.Scheme (http.URL (director c req).2) = url.Scheme (target c).
Proof. unfold director; simpl. now destruct (_ || _). Qed.

Lemma director_Host c req :
  url.Host (http.URL (director c req).2) = url.Host (target c).
Proof. unfold director; simpl. now destruct (_ || _). Qed.

Lemma director_Path c req :
  url.Path (http.URL (director c req).2)
  = TrimPrefix (url.Path (http.URL req)) (basePath c).
Proof. unfold director; simpl. now destruct (_ || _). Qed.

Lemma director_RawQuery c req :
  url.RawQuery (http.URL (director c req).2)
  = if String.eqb (targetQuery c) ""
       || String.eqb (url.RawQuery (http.URL req)) ""
    then targetQuery c +:+ url.RawQuery (http.URL req)
    else targetQuery c +:+ "&" +:+ url.RawQuery (http.URL req).
Proof. unfold director; simpl. now destruct (_ || _). Qed.

Lemma director_closure c req : (director c req).1 = c.
Proof. reflexivity. Qed.

Lemma NewRewriteReverseProxy_Ok basePath redirectUrl proxy :
  NewRewriteReverseProxy basePath redirectUrl = Ok proxy <->
  exists target,
    url.Parse redirectUrl = Ok target
    /\ proxy = mkReverseProxy
                 (mkDirector basePath target (url.RawQuery target)).
Proof.
  unfold NewRewriteReverseProxy.
  destruct (url.Parse redirectUrl) as [t|e]; split.
  - intros [= <-]. now exists t.
  - intros (t' & [= <-] & ->). reflexivity.
  - discriminate.
  - intros (t' & [=] & _).
Qed.

Lemma NewRewriteReverseProxy_Err basePath redirectUrl e :
  NewRewriteReverseProxy basePath redirectUrl = Err e <->
  url.Parse redirectUrl = Err e.
Proof.
  unfold NewRewriteReverseProxy.
  destruct (url.Parse redirectUrl); split; congruence.
Qed.
End DirectorFacts.

(** The merged query in the four cases of the two queries being empty. *)
Lemma merge_cases (tq iq q : string) :
  q = (if String.eqb tq "" || String.eqb iq "" then tq +:+ iq
       else tq +:+ "&" +:+ iq) ->
  (tq = "" -> iq = "" -> q = "")
  /\ (tq = "" -> iq <> "" -> q = iq)
  /\ (tq <> "" -> iq = "" -> q = tq)
  /\ (tq <> "" -> iq <> "" -> q = tq +:+ "&" +:+ iq).
Proof.
  intros ->. repeat split.
  - intros -> ->. reflexivity.
  - intros -> _. reflexivity.
  - intros _ ->. rewrite String.eqb_refl, orb_true_r. apply app_empty_r.
  - intros Ht Hi. now rewrite !eqb_empty_false.
Qed.

(** C1. For a proxy built for any route and any request its director
    rewrites, the rewritten query is empty when the backend's static
    query and the inbound query are both empty, is the non-empty one as
    it stands when exactly one is empty, and is the backend's query, then
    ["&"], then the inbound query when both are non-empty. With the
    configuration [svc -> http://backend.local:9000/base?key=abc], the
    request [GET /svc/items?page=2] leaves with query [key=abc&page=2]. *)
Theorem query_merge :
  (forall basePath redirectUrl backend req,
      url.Parse redirectUrl = Ok backend ->
      exists proxy,
        NewRewriteReverseProxy basePath redirectUrl = Ok proxy
        /\ let tq := url.RawQuery backend in
           let iq := url.RawQuery (http.URL req) in
           let q := url.RawQuery (http.URL (rewrite proxy req)) in
           (tq = "" -> iq = "" -> q = "")
           /\ (tq = "" -> iq <> "" -> q = iq)
           /\ (tq <> "" -> iq = "" -> q = tq)
           /\ (tq <> "" -> iq <> "" -> q = tq +:+ "&" +:+ iq))
  /\ (exists r req out,
        main [("svc", svc_url)] = Ok r
        /\ http.ReadRequest "GET" "/svc/items?page=2" "192.0.2.1:4000" ∅
           = Ok req
        /\ forwarded r req = Some out
        /\ url.RawQuery (http.URL out) = "key=abc&page=2").
Proof.
  split.
  - intros basePath redirectUrl backend req Hparse.
    exists (mkReverseProxy
              (mkDirector basePath backend (url.RawQuery backend))).
    split.
    + apply NewRewriteReverseProxy_Ok. eauto.
    + cbv zeta. apply merge_cases. unfold rewrite.
      now rewrite director_RawQuery.
  - do 3 eexists. repeat split; vm_compute; reflexivity.
Qed.

Lemma query_merge_witness :
  url.Parse svc_url = Ok svc_backend
  /\ exists proxy,
      NewRewriteReverseProxy "/svc" svc_url = Ok proxy
      /\ url.RawQuery (http.URL (rewrite proxy svc_request))
         = "key=abc&page=2".
Proof.
  split; [vm_compute; reflexivity |].
  destruct (proj1 query_merge "/svc" svc_url svc_backend svc_request)
    as (proxy & Hnew & _ & _ & _ & Hboth).
  - vm_compute; reflexivity.
  - exists proxy. split; [exact Hnew |].
    apply Hboth; simpl; discriminate.
Defined.

(** C2. When the inbound path starts with the route's prefix, the
    director sets scheme and host to the backend's and the path to the
    inbound path with the prefix stripped from the left: the inbound path
    is the prefix followed by the new path. *)
Theorem rewrite_strips_prefix basePath redirectUrl proxy req :
  NewRewriteReverseProxy basePath redirectUrl = Ok proxy ->
  gostrings.HasPrefix (url.Path (http.URL req)) basePath = true ->
  exists backend,
    url.Parse redirectUrl = Ok backend
    /\ url.Scheme (http.URL (rewrite proxy req)) = url.Scheme backend
    /\ url.Host (http.URL (rewrite proxy req)) = url.Host backend
    /\ url.Path (http.URL req)
       = basePath +:+ url.Path (http.URL (rewrite proxy req)).
Proof.
  intros (backend & Hparse & ->)%NewRewriteReverseProxy_Ok Hpre.
  exists backend. unfold rewrite.
  rewrite director_Scheme, director_Host, director_Path. simpl.
  repeat split; try assumption. now apply TrimPrefix_prefix.
Qed.

Lemma rewrite_strips_prefix_witness :
  NewRewriteReverseProxy "/svc" svc_url = Ok svc_proxy
  /\ gostrings.HasPrefix (url.Path (http.URL svc_request)) "/svc" = true
  /\ exists backend,
      url.Parse svc_url = Ok backend
      /\ url.Scheme (http.URL (rewrite svc_proxy svc_request))
         = url.Scheme backend
      /\ url.Host (http.URL (rewrite svc_proxy svc_request))
         = url.Host backend
      /\ url.Path (http.URL svc_request)
         = "/svc" +:+ url.Path (http.URL (rewrite svc_proxy svc_request)).
Proof.
  split; [vm_compute; reflexivity |].
  split; [vm_compute; reflexivity |].
  apply (rewrite_strips_prefix "/svc" svc_url svc_proxy svc_request);
    vm_compute; reflexivity.
Defined.

(** C9. The director is total: on a request whose path does not start
    with the route's prefix, the path is left as it is, and scheme, host
    and query are rewritten as for any other request. *)
Theorem rewrite_without_prefix basePath redirectUrl proxy req :
  NewRewriteReverseProxy basePath redirectUrl = Ok proxy ->
  gostrings.HasPrefix (url.Path (http.URL req)) basePath = false ->
  exists backend out,
    url.Parse redirectUrl = Ok backend
    /\ director (Director proxy) req = (Director proxy, out)
    /\ url.Path (http.URL out) = url.Path (http.URL req)
    /\ url.Scheme (http.URL out) = url.Scheme backend
    /\ url.Host (http.URL out) = url.Host backend
    /\ url.RawQuery (http.URL out)
       = if String.eqb (url.RawQuery backend) ""
            || String.eqb (url.RawQuery (http.URL req)) ""
         then url.RawQuery backend +:+ url.RawQuery (http.URL req)
         else url.RawQuery backend +:+ "&" +:+ url.RawQuery (http.URL req).
Proof.
  intros (backend & Hparse & ->)%NewRewriteReverseProxy_Ok Hpre.
  set (c := mkDirector basePath backend (url.RawQuery backend)).
  exists backend, (director c req).2.
  split; [exact Hparse |]. split; [reflexivity |].
  rewrite director_Path, director_Scheme, director_Host, director_RawQuery.
  simpl. now rewrite (TrimPrefix_other _ _ Hpre).
Qed.

Lemma rewrite_without_prefix_witness :
  let req := http.mkRequest "GET"
               (url.mkURL "" "" None "" "/other/items" false "page=2" "")
               ∅ "192.0.2.1:4000" "/other/items?page=2" in
  exists out,
    director (Director svc_proxy) req = (Director svc_proxy, out)
    /\ url.Path (http.URL out) = "/other/items"
    /\ url.Scheme (http.URL out) = "http"
    /\ url.Host (http.URL out) = "backend.local:9000"
    /\ url.RawQuery (http.URL out) = "key=abc&page=2".
Proof.
  intros req.
  destruct (rewrite_without_prefix "/svc" svc_url svc_proxy req)
    as (backend & out & Hparse & Hd & HP & HS & HH & HQ);
    [vm_compute; reflexivity | vm_compute; reflexivity |].
  vm_compute in Hparse. injection Hparse as <-.
  exists out. repeat split; assumption.
Defined.

Lemma serve_all_map c reqs :
  serve_all c reqs = (c, map (fun req => (director c req).2) reqs).
Proof.
  induction reqs as [|req reqs IH]; simpl; [reflexivity |].
  now rewrite IH.
Qed.

(** C7. The rewrite is deterministic and keeps no state: a call leaves
    the closure (prefix, backend, static query) as it was; requests
    served in sequence by one proxy are each rewritten as if served
    alone, so a request sent twice is rewritten twice to the same result;
    and two requests with the same path and query get the same scheme,
    host, path and query. *)
Theorem rewrite_stateless c :
  (forall req, (director c req).1 = c)
  /\ (forall reqs,
        serve_all c reqs = (c, map (fun req => (director c req).2) reqs))
  /\ (forall req, exists out, serve_all c [req; req] = (c, [out; out]))
  /\ (forall req1 req2,
        url.Path (http.URL req1) = url.Path (http.URL req2) ->
        url.RawQuery (http.URL req1) = url.RawQuery (http.URL req2) ->
        let out1 := http.URL (director c req1).2 in
        let out2 := http.URL (director c req2).2 in
        url.Scheme out1 = url.Scheme out2
        /\ url.Host out1 = url.Host out2
        /\ url.Path out1 = url.Path out2
        /\ url.RawQuery out1 = url.RawQuery out2).
Proof.
  split; [intros req; apply director_closure |].
  split; [apply serve_all_map |].
  split.
  - intros req. exists (director c req).2. now rewrite serve_all_map.
  - intros req1 req2 HP HQ. cbv zeta.
    rewrite !director_Scheme, !director_Host, !director_Path,
      !director_RawQuery, HP, HQ.
    auto.
Qed.

Lemma rewrite_stateless_witness :
  let other := http.mkRequest "POST"
                 (url.mkURL "https" "" None "gateway.local" "/svc/items"
                    false "page=2" "")
                 ∅ "198.51.100.7:80" "/svc/items?page=2" in
  url.Host (http.URL (director (Director svc_proxy) svc_request).2)
  = url.Host (http.URL (director (Director svc_proxy) other).2)
  /\ url.RawQuery (http.URL (director (Director svc_proxy) svc_request).2)
     = url.RawQuery (http.URL (director (Director svc_proxy) other).2).
Proof.
  intros other.
  destruct (proj2 (proj2 (proj2 (rewrite_stateless (Director svc_proxy))))
              svc_request other) as (_ & HH & _ & HQ);
    [reflexivity | reflexivity |].
  split; assumption.
Defined.

(** ** The status-capturing writer *)

Lemma last_cons {A} (x d : A) (l : list A) :
  List.last (x :: l) d = List.last l x.
Proof.
  revert x d. induction l as [|y l IH]; intros x d; [reflexivity |].
  change (List.last (y :: l) d = List.last (y :: l) x).
  now rewrite (IH y d), (IH y x).
Qed.

Section WriterFacts.
Context {W : Type} `{!http.ResponseWriter W}.

(** A handler run against the capturing writer does to the embedded
    writer and to the world what it does when run against the embedded
    writer itself, and leaves the last status code it set captured. *)
Lemma exec_capture (p : handlerProg) (st : Z) (res : W) (σ : World) :
  exec p (mkStatusLogging st res) σ
  = match exec p res σ with
    | Returned (res', σ') =>
        Returned
          (mkStatusLogging (List.last (statusCodes p res) st) res', σ')
    | Panicked v => Panicked v
    end.
Proof.
  revert st res σ.
  induction p as [|v|k IH|f next IH|data k IH|code next IH|d next IH
                 |entry next IH]; intros st res σ; simpl.
  - reflexivity.
  - reflexivity.
  - apply IH.
  - apply IH.
  - unfold Write; simpl. destruct (http.rw_Write data res) as [res' r].
    apply IH.
  - unfold WriteHeader; simpl. rewrite IH.
    destruct (exec next _ σ) as [[res' σ']|v]; [|reflexivity].
    destruct (statusCodes next _) as [|c codes]; [reflexivity |].
    now rewrite (last_cons c code), (last_cons c st).
  - apply IH.
  - apply IH.
Qed.

Lemma fold_WriteHeader (codes : list Z) (w : StatusLoggingResponseWriter W) :
  fold_left (fun w c => WriteHeader c w) codes w
  = mkStatusLogging (List.last codes (status w))
      (fold_left (fun res c => http.rw_WriteHeader c res) codes
         (ResponseWriter w)).
Proof.
  revert w. induction codes as [|c codes IH]; intros w.
  - now destruct w.
  - cbn [fold_left]. now rewrite IH, last_cons.
Qed.
End WriterFacts.

Lemma exec_andThen {W : Type} `{!http.ResponseWriter W}
    (p q : handlerProg) (w : W) (σ : World) :
  exec (andThen p q) w σ
  = match exec p w σ with
    | Returned (w', σ') => exec q w' σ'
    | Panicked v => Panicked v
    end.
Proof.
  revert w σ.
  induction p as [|v|k IH|f next IH|data k IH|code next IH|d next IH
                 |entry next IH]; intros w σ; simpl; try reflexivity;
    try apply IH.
  destruct (http.rw_Write data w) as [w' r]. apply IH.
Qed.

(** Behind the capturing writer a streaming handler finds no Flusher:
    its run is that of its calls alone. *)
Lemma exec_streaming_capture {W : Type} `{!http.ResponseWriter W}
    (p : streamingProg) (w : StatusLoggingResponseWriter W) (σ : World) :
  exec_streaming p w σ = exec (calls_only p) w σ.
Proof.
  revert w σ. induction p as [p|p next IH]; intros w σ; simpl.
  - reflexivity.
  - rewrite exec_andThen.
    destruct (exec p w σ) as [[w' σ']|v]; [|reflexivity].
    apply IH.
Qed.

(** C4, as the spec states it: the capture does not alter, delay or
    buffer the response, so whatever a handler does, the embedded writer
    ends as it would had the handler been given that writer. It does
    not: the capturing writer is no [http.Flusher], and a handler that
    flushes each event it writes leaves the event in the buffer of the
    embedded writer instead of on the wire. *)
Lemma capture_hides_flusher :
  ~ (forall (W : Type) (RW : http.ResponseWriter W) (F : MaybeFlusher W)
            (p : streamingProg) (res : W) (σ : World)
            (w : StatusLoggingResponseWriter W) (σ' : World),
        exec_streaming p (NewStatusLoggingResponseWriter res) σ
        = Returned (w, σ') ->
        exec_streaming p res σ = Returned (ResponseWriter w, σ')).
Proof.
  intros Hclaim.
  specialize (Hclaim bufferedWriter _ _ event_handler fresh_buffered world0
                (mkStatusLogging 200 (mkBuffered ∅ [] "tick" "")) world0
                eq_refl).
  vm_compute in Hclaim. discriminate Hclaim.
Qed.

(** C4, amended. The capturing writer starts with status 200;
    [WriteHeader] captures the code it is given and passes the same code
    to the embedded writer; [Write] and header access go to the embedded
    writer as they are and leave the captured status alone; so a handler
    that uses the writer through [Header], [Write] and [WriteHeader]
    only leaves the embedded writer, the clock and the results of its
    calls as a run against the embedded writer itself would, and a
    handler that sets no status leaves 200 captured. The capturing
    writer does not pass on the optional interfaces of the embedded
    writer: a handler that flushes where its writer is a Flusher has,
    behind the capture, the effect of its calls without the flushes. *)
Theorem capture_passes_through {W : Type} `{!http.ResponseWriter W} :
  (forall res : W,
      Status (NewStatusLoggingResponseWriter res) = 200%Z
      /\ ResponseWriter (NewStatusLoggingResponseWriter res) = res)
  /\ (forall (w : StatusLoggingResponseWriter W) statusCode,
        Status (WriteHeader statusCode w) = statusCode
        /\ ResponseWriter (WriteHeader statusCode w)
           = http.rw_WriteHeader statusCode (ResponseWriter w))
  /\ (forall (w : StatusLoggingResponseWriter W) data,
        Status (Write data w).1 = Status w
        /\ ResponseWriter (Write data w).1
           = (http.rw_Write data (ResponseWriter w)).1
        /\ (Write data w).2 = (http.rw_Write data (ResponseWriter w)).2)
  /\ (forall (w : StatusLoggingResponseWriter W) f,
        Header w = http.rw_Header (ResponseWriter w)
        /\ Status (Header_update f w) = Status w
        /\ ResponseWriter (Header_update f w)
           = http.rw_Header_update f (ResponseWriter w))
  /\ (forall p (res : W) σ,
        exec p (NewStatusLoggingResponseWriter res) σ
        = match exec p res σ with
          | Returned (res', σ') =>
              Returned
                (mkStatusLogging (List.last (statusCodes p res) 200%Z) res',
                 σ')
          | Panicked v => Panicked v
          end)
  /\ (forall p (res : W) σ w σ',
        exec p (NewStatusLoggingResponseWriter res) σ = Returned (w, σ') ->
        statusCodes p res = [] ->
        Status w = 200%Z)
  /\ (forall (p : streamingProg) (res : W) σ,
        exec_streaming p (NewStatusLoggingResponseWriter res) σ
        = match exec (calls_only p) res σ with
          | Returned (res', σ') =>
              Returned
                (mkStatusLogging
                   (List.last (statusCodes (calls_only p) res) 200%Z) res',
                 σ')
          | Panicked v => Panicked v
          end).
Proof.
  split; [intros res; split; reflexivity |].
  split; [intros w c; split; reflexivity |].
  split.
  { intros w data. unfold Write.
    destruct (http.rw_Write data (ResponseWriter w)); repeat split. }
  split; [intros w f; repeat split |].
  split; [intros p res σ; apply exec_capture |].
  split.
  - intros p res σ w σ' Hexec Hnone.
    unfold NewStatusLoggingResponseWriter in Hexec.
    rewrite exec_capture, Hnone in Hexec.
    destruct (exec p res σ) as [[res' σ'']|v]; [|discriminate].
    now injection Hexec as <- _.
  - intros p res σ. rewrite exec_streaming_capture. apply exec_capture.
Qed.

Lemma capture_passes_through_witness :
  let w := mkStatusLogging 200
             (mkRecorder {["Content-Type" := ["text/plain"]]}
                [Wrote "hello"]) in
  let σ' := mkWorld 1005 [] in
  exec body_handler (NewStatusLoggingResponseWriter fresh_recorder) world0
  = Returned (w, σ')
  /\ statusCodes body_handler fresh_recorder = []
  /\ Status w = 200%Z.
Proof.
  intros w σ'.
  assert (Hexec : exec body_handler
                    (NewStatusLoggingResponseWriter fresh_recorder) world0
                  = Returned (w, σ')) by (vm_compute; reflexivity).
  assert (Hnone : statusCodes body_handler fresh_recorder = [])
    by reflexivity.
  split; [exact Hexec |]. split; [exact Hnone |].
  exact (proj1 (proj2 (proj2 (proj2 (proj2 (proj2 capture_passes_through)))))
           body_handler fresh_recorder world0 w σ' Hexec Hnone).
Defined.

(** C10. When the handler sets the status more than once, every call
    reaches the embedded writer, in order, and the status read afterwards
    is the argument of the last call: for a plain sequence of
    [WriteHeader] calls, and for any handler that returns. *)
Theorem last_status_wins {W : Type} `{!http.ResponseWriter W} :
  (forall (codes : list Z) (res : W),
      let w := fold_left (fun w c => WriteHeader c w) codes
                 (NewStatusLoggingResponseWriter res) in
      Status w = List.last codes 200%Z
      /\ ResponseWriter w
         = fold_left (fun res c => http.rw_WriteHeader c res) codes res)
  /\ (forall p (res : W) σ w σ',
        exec p (NewStatusLoggingResponseWriter res) σ = Returned (w, σ') ->
        exec p res σ = Returned (ResponseWriter w, σ')
        /\ Status w = List.last (statusCodes p res) 200%Z).
Proof.
  split.
  - intros codes res w. subst w. rewrite fold_WriteHeader. split; reflexivity.
  - intros p res σ w σ' Hexec.
    unfold NewStatusLoggingResponseWriter in Hexec.
    rewrite exec_capture in Hexec.
    destruct (exec p res σ) as [[res' σ'']|v]; [|discriminate].
    injection Hexec as <- <-. split; reflexivity.
Qed.

Lemma last_status_wins_witness :
  let w := mkStatusLogging 500
             (mkRecorder ∅
                [WroteHeader 404; WroteHeader 500; Wrote "not found"]) in
  exec twice_handler (NewStatusLoggingResponseWriter fresh_recorder) world0
  = Returned (w, world0)
  /\ exec twice_handler fresh_recorder world0
     = Returned (ResponseWriter w, world0)
  /\ Status w = List.last (statusCodes twice_handler fresh_recorder) 200%Z.
Proof.
  intros w.
  assert (Hexec : exec twice_handler
                    (NewStatusLoggingResponseWriter fresh_recorder) world0
                  = Returned (w, world0)) by (vm_compute; reflexivity).
  split; [exact Hexec |].
  exact (proj2 last_status_wins twice_handler fresh_recorder world0 w world0
           Hexec).
Defined.

(** ** The access log *)




(** ** The route table *)

Section MainFacts.
Import gostrings.

Lemma main_loop_app (order : list (string * string))
    (r : mux.Router ReverseProxy) :
  match main_loop r order with
  | Ok r' =>
      Forall (fun entry => url.Parse entry.2 = Ok (backend_of entry.2)) order
      /\ r' = (r ++ map route_of order)%list
  | Err e => Exists (fun entry => url.Parse entry.2 = Err e) order
  end.
Proof.
  revert r. induction order as [|[base redirectPath] order IH]; intros r.
  - simpl. split; [constructor | now rewrite app_nil_r].
  - cbn [main_loop]. unfold NewRewriteReverseProxy.
    destruct (url.Parse redirectPath) as [backend|e] eqn:Hparse.
    + specialize (IH (mux.PathPrefix_Handler r ("/" +:+ base +:+ "/")
                        (mkReverseProxy
                           (mkDirector ("/" +:+ base) backend
                              (url.RawQuery backend))))).
      destruct (main_loop _ order) as [r'|e].
      * destruct IH as [Hall ->]. split.
        -- constructor; [|exact Hall].
           unfold backend_of; simpl; now rewrite Hparse.
        -- unfold mux.PathPrefix_Handler. rewrite <- app_assoc. simpl.
           do 2 f_equal. unfold route_of, proxy_of, backend_of; simpl.
           now rewrite Hparse.
      * now apply Exists_cons_tl.
    + apply Exists_cons_hd. exact Hparse.
Qed.

Lemma main_Ok order r :
  main order = Ok r ->
  Forall (fun entry => url.Parse entry.2 = Ok (backend_of entry.2)) order
  /\ r = map route_of order.
Proof.
  unfold main. intros Hmain.
  pose proof (main_loop_app order mux.NewRouter) as Hspec.
  rewrite Hmain in Hspec. exact Hspec.
Qed.

Lemma main_Err order e :
  main order = Err e ->
  Exists (fun entry => url.Parse entry.2 = Err e) order.
Proof.
  unfold main. intros Hmain.
  pose proof (main_loop_app order mux.NewRouter) as Hspec.
  now rewrite Hmain in Hspec.
Qed.

Lemma range_of_lookup (m : gmap string string) order base u :
  range_of m order -> ((base, u) ∈ order <-> m !! base = Some u).
Proof.
  unfold range_of. intros ->. apply elem_of_map_to_list.
Qed.

Lemma range_of_NoDup (m : gmap string string) order :
  range_of m order -> NoDup (map fst order).
Proof.
  unfold range_of. intros ->. apply NoDup_fst_map_to_list.
Qed.
End MainFacts.

(** C3, as the spec states it: construction fails whenever some backend
    URL is not an absolute URL. It does not: a backend given without a
    scheme parses as a relative reference, and [main] serves the table. *)
Lemma schemeless_backend_accepted :
  ~ (forall cfg order,
        range_of (Routes cfg) order ->
        (exists base u,
            Routes cfg !! base = Some u /\ absolute_URL u = false) ->
        exists e, main order = Err e).
Proof.
  intros Hclaim.
  destruct (Hclaim schemeless_config [("svc", "backend.local/base")])
    as [e He].
  - unfold range_of, schemeless_config; simpl.
    now rewrite map_to_list_singleton.
  - exists "svc", "backend.local/base". split; [|vm_compute; reflexivity].
    apply lookup_singleton_eq.
  - vm_compute in He. discriminate.
Qed.

(** C3, amended. Construction of the route table fails, the process
    exiting before it serves, exactly when the URL parser rejects the
    backend URL of some configured route; otherwise the table that is
    served has a route for every entry of the configuration. *)
Theorem startup_fails_on_parse_error cfg order :
  range_of (Routes cfg) order ->
  ((exists e, main order = Err e) <->
   (exists base u e, Routes cfg !! base = Some u /\ url.Parse u = Err e))
  /\ (forall r, main order = Ok r ->
        r = map route_of order
        /\ length r = size (Routes cfg)
        /\ forall base u, Routes cfg !! base = Some u ->
             exists backend, url.Parse u = Ok backend).
Proof.
  intros Hrange. split; [split|].
  - intros [e He]. apply main_Err in He.
    apply Exists_exists in He as ([base u] & Hin & Hparse).
    exists base, u, e. split; [|exact Hparse].
    now apply (range_of_lookup _ _ _ _ Hrange).
  - intros (base & u & e & Hlook & Hparse).
    apply (range_of_lookup _ _ _ _ Hrange) in Hlook.
    destruct (main order) as [r|e'] eqn:Hmain; [|eauto].
    apply main_Ok in Hmain as [Hall _].
    rewrite Forall_forall in Hall.
    specialize (Hall (base, u) Hlook). simpl in Hall. congruence.
  - intros r Hmain. apply main_Ok in Hmain as [Hall ->].
    split; [reflexivity |]. split.
    + rewrite length_map. unfold range_of in Hrange. rewrite Hrange.
      apply length_map_to_list.
    + intros base u Hlook.
      apply (range_of_lookup _ _ _ _ Hrange) in Hlook.
      rewrite Forall_forall in Hall.
      specialize (Hall (base, u) Hlook). eauto.
Qed.

Lemma startup_fails_on_parse_error_witness :
  range_of (Routes (mkConfig {["svc" := ":9000/base"]}))
    [("svc", ":9000/base")]
  /\ exists e, main [("svc", ":9000/base")] = Err e.
Proof.
  assert (Hrange : range_of (Routes (mkConfig {["svc" := ":9000/base"]}))
                     [("svc", ":9000/base")]).
  { unfold range_of; simpl. now rewrite map_to_list_singleton. }
  split; [exact Hrange |].
  apply (proj1 (startup_fails_on_parse_error _ _ Hrange)).
  exists "svc", ":9000/base", url.MissingProtocolScheme.
  split; [apply lookup_singleton_eq | vm_compute; reflexivity].
Defined.

(** ** Routing *)

Section RoutingFacts.
Import gostrings.
Context {H : Type}.

Lemma Match_first (pre post : mux.Router H) (rt : mux.Route H) path :
  Forall (fun rt' => mux.Route_Match rt' path = false) pre ->
  mux.Route_Match rt path = true ->
  mux.Match (pre ++ rt :: post)%list path = Some rt.
Proof.
  intros Hpre Hrt. induction Hpre as [|rt' pre Hrt' _ IH]; simpl.
  - now rewrite Hrt.
  - now rewrite Hrt'.
Qed.

Lemma Match_Some (r : mux.Router H) (rt : mux.Route H) path :
  mux.Match r path = Some rt ->
  exists pre post,
    r = (pre ++ rt :: post)%list
    /\ Forall (fun rt' => mux.Route_Match rt' path = false) pre
    /\ mux.Route_Match rt path = true.
Proof.
  induction r as [|rt' r IH]; simpl; [discriminate |].
  destruct (mux.Route_Match rt' path) eqn:Hrt'.
  - intros [= ->]. exists [], r. repeat split; [constructor | exact Hrt'].
  - intros (pre & post & -> & Hpre & Hrt)%IH.
    exists (rt' :: pre), post. repeat split; [|exact Hrt].
    now constructor.
Qed.
End RoutingFacts.

(** In a list without two entries of the same name, an entry of a given
    name sits at one place only. *)
Lemma split_unique {A B : Type} (pre pre' post post' : list (A * B))
    (x y : A * B) :
  NoDup (map fst (pre ++ x :: post)%list) ->
  (pre ++ x :: post = pre' ++ y :: post')%list ->
  x.1 = y.1 ->
  pre = pre'.
Proof.
  revert pre'. induction pre as [|z pre IH]; intros pre' Hnd Heq Hxy.
  - destruct pre' as [|z' pre']; [reflexivity |].
    simpl in Heq. injection Heq as <- ->.
    simpl in Hnd. apply NoDup_cons in Hnd as [Hnotin _].
    exfalso. apply Hnotin. apply list_elem_of_In, in_map_iff.
    exists y. split; [now symmetry |]. apply in_or_app. right. now left.
  - destruct pre' as [|z' pre'].
    + simpl in Heq. injection Heq as -> <-.
      simpl in Hnd. apply NoDup_cons in Hnd as [Hnotin _].
      exfalso. apply Hnotin. apply list_elem_of_In, in_map_iff.
      exists x. split; [exact Hxy |]. apply in_or_app. right. now left.
    + simpl in Heq. injection Heq as <- Heq.
      f_equal. apply IH; [|exact Heq | exact Hxy].
      simpl in Hnd. now apply NoDup_cons in Hnd as [_ Hnd].
Qed.

(** C5, as the spec states it: a request goes to the forwarder of route
    [N] exactly when its path begins with ["/" + N + "/"]. It does not,
    even for route names without braces and a path in canonical form,
    when a route name extends another: with routes [a] and [a/b], added
    in this order, the path [/a/b/c] begins with ["/a/b/"] and is served
    by the forwarder of [a]. *)
Lemma nested_route_shadowed :
  ~ (forall cfg order r N u proxy path,
        range_of (Routes cfg) order ->
        main order = Ok r ->
        Routes cfg !! N = Some u ->
        Forall (fun entry => mux.literal entry.1 = true) order ->
        NewRewriteReverseProxy ("/" +:+ N) u = Ok proxy ->
        mux.cleanPath path = path ->
        (mux.ServeHTTP r path = mux.Dispatch proxy
         <-> gostrings.HasPrefix path ("/" +:+ N +:+ "/") = true)).
Proof.
  intros Hclaim.
  destruct (main nested_order) as [r|e] eqn:Hmain; [|discriminate Hmain].
  specialize (Hclaim nested_config nested_order r "a/b" "http://two.local"
                (proxy_of ("a/b", "http://two.local")) "/a/b/c").
  destruct Hclaim as [_ Hback].
  - unfold range_of, nested_config, nested_order; simpl.
    rewrite !map_to_list_insert by reflexivity.
    now rewrite map_to_list_empty.
  - exact Hmain.
  - reflexivity.
  - repeat constructor.
  - vm_compute; reflexivity.
  - vm_compute; reflexivity.
  - specialize (Hback eq_refl).
    vm_compute in Hmain. injection Hmain as <-.
    vm_compute in Hback. discriminate Hback.
Qed.

Lemma proxy_of_built N u proxy :
  NewRewriteReverseProxy ("/" +:+ N) u = Ok proxy -> proxy = proxy_of (N, u).
Proof.
  intros (backend & Hparse & ->)%NewRewriteReverseProxy_Ok.
  unfold proxy_of, backend_of; simpl. now rewrite Hparse.
Qed.

Lemma proxy_of_name e1 e2 : proxy_of e1 = proxy_of e2 -> e1.1 = e2.1.
Proof. unfold proxy_of. now intros [= H _]. Qed.

(** C5, amended. [main] registers, for every route name [N] of the
    configuration, the prefix ["/" + N + "/"] with a forwarder whose base
    path is ["/" + N]. For route names without braces, a request goes to
    the forwarder of [N] exactly when its path is in canonical form (the
    router answers any other path with a redirect), begins with
    ["/" + N + "/"], and begins with the prefix of no route added before
    [N]. A route named [api] serves [/api/foo] and not [/apikey/foo]. *)
Theorem route_dispatch :
  (forall cfg order r pre N u post proxy path,
      range_of (Routes cfg) order ->
      main order = Ok r ->
      order = (pre ++ (N, u) :: post)%list ->
      Forall (fun entry => mux.literal entry.1 = true) order ->
      NewRewriteReverseProxy ("/" +:+ N) u = Ok proxy ->
      basePath (Director proxy) = "/" +:+ N
      /\ mux.mkRoute ("/" +:+ N +:+ "/") proxy ∈ r
      /\ (mux.ServeHTTP r path = mux.Dispatch proxy
          <-> mux.cleanPath path = path
              /\ gostrings.HasPrefix path ("/" +:+ N +:+ "/") = true
              /\ Forall (fun entry =>
                          gostrings.HasPrefix path ("/" +:+ entry.1 +:+ "/")
                          = false) pre))
  /\ (exists r proxy,
        main api_order = Ok r
        /\ mux.ServeHTTP r "/api/foo" = mux.Dispatch proxy
        /\ mux.ServeHTTP r "/apikey/foo" = mux.NotFound).
Proof.
  split; [|do 2 eexists; repeat split; vm_compute; reflexivity].
  intros cfg order r pre N u post proxy path Hrange Hmain Horder _ Hnew.
  apply main_Ok in Hmain as [_ ->].
  apply range_of_NoDup in Hrange.
  apply proxy_of_built in Hnew as ->. subst order.
  split; [reflexivity |]. split.
  { apply list_elem_of_In, in_map_iff. exists (N, u).
    split; [reflexivity |]. apply in_or_app. right. now left. }
  unfold mux.ServeHTTP.
  destruct (String.eqb (mux.cleanPath path) path) eqn:Hclean; simpl.
  - apply String.eqb_eq in Hclean. split.
    + destruct (mux.Match _ path) as [rt|] eqn:HM; [|discriminate].
      intros [= Hrt].
      apply Match_Some in HM as (pre' & post' & Heq & Hpre' & Hmatch).
      apply map_eq_app in Heq as (pre0 & rest & Hsplit & <- & Hrest).
      apply map_eq_cons in Hrest as (e & post0 & -> & <- & _).
      simpl in Hrt. apply proxy_of_name in Hrt. simpl in Hrt.
      assert (pre = pre0) as <-.
      { eapply split_unique; [exact Hrange | exact Hsplit |].
        simpl. now symmetry. }
      apply List.app_inv_head in Hsplit. injection Hsplit as <- _.
      split; [exact Hclean |]. split; [exact Hmatch |].
      apply Forall_map in Hpre'. exact Hpre'.
    + intros (_ & HN & Hpre). rewrite map_app. simpl.
      rewrite Match_first; [reflexivity | | exact HN].
      apply Forall_map. exact Hpre.
  - apply String.eqb_neq in Hclean. split; [discriminate |].
    now intros [Hcanon _].
Qed.

Lemma route_dispatch_witness :
  range_of (Routes nested_config) nested_order
  /\ mux.ServeHTTP (map route_of nested_order) "/a/b/c"
     = mux.Dispatch (proxy_of ("a", "http://one.local"))
  /\ mux.ServeHTTP (map route_of nested_order) "/a/b/c"
     <> mux.Dispatch (proxy_of ("a/b", "http://two.local")).
Proof.
  assert (Hrange : range_of (Routes nested_config) nested_order).
  { unfold range_of, nested_config, nested_order; simpl.
    rewrite !map_to_list_insert by reflexivity.
    now rewrite map_to_list_empty. }
  assert (Hmain : main nested_order = Ok (map route_of nested_order))
    by (vm_compute; reflexivity).
  assert (Hlit : Forall (fun entry => mux.literal entry.1 = true)
                   nested_order)
    by (repeat constructor).
  split; [exact Hrange |]. split.
  - apply (proj1 route_dispatch nested_config nested_order _ []
             "a" "http://one.local" [("a/b", "http://two.local")]
             (proxy_of ("a", "http://one.local")) "/a/b/c"
             Hrange Hmain eq_refl Hlit); [vm_compute; reflexivity |].
    split; [vm_compute; reflexivity |].
    split; [vm_compute; reflexivity | constructor].
  - intros Hab.
    apply (proj1 route_dispatch nested_config nested_order _
             [("a", "http://one.local")]
             "a/b" "http://two.local" []
             (proxy_of ("a/b", "http://two.local")) "/a/b/c"
             Hrange Hmain eq_refl Hlit) in Hab; [|vm_compute; reflexivity].
    destruct Hab as (_ & _ & Hpre). inversion Hpre as [|? ? Hfalse _]; subst.
    vm_compute in Hfalse. discriminate Hfalse.
Defined.

(** * Further properties *)

(** ** More on strings *)

Lemma append_assoc (a b c : string) : (a +:+ b) +:+ c = a +:+ (b +:+ c).
Proof.
  induction a as [|x a IH]; [reflexivity |].
  change (String x ((a +:+ b) +:+ c) = String x (a +:+ (b +:+ c))).
  now f_equal.
Qed.

Lemma append_cons (x : ascii) (a b : string) :
  String x a +:+ b = String x (a +:+ b).
Proof. reflexivity. Qed.

Lemma append_empty_inv (a b : string) : a +:+ b = "" -> a = "" /\ b = "".
Proof.
  destruct a as [|x a]; intros H.
  - split; [reflexivity | exact H].
  - rewrite append_cons in H. discriminate H.
Qed.

Lemma append_nonempty_l (a b : string) : a <> "" -> a +:+ b <> "".
Proof. intros Ha [-> _]%append_empty_inv. now apply Ha. Qed.

Lemma append_nonempty_r (a b : string) : b <> "" -> a +:+ b <> "".
Proof. intros Hb [_ ->]%append_empty_inv. now apply Hb. Qed.

Lemma append_inv_tail (a b c : string) : a +:+ c = b +:+ c -> a = b.
Proof.
  revert b. induction a as [|x a IH]; intros [|y b] H.
  - reflexivity.
  - exfalso. apply (f_equal String.length) in H.
    rewrite !length_app in H. simpl in H. lia.
  - exfalso. apply (f_equal String.length) in H.
    rewrite !length_app in H. simpl in H. lia.
  - rewrite !append_cons in H. injection H as -> H. f_equal. now apply IH.
Qed.

Lemma ContainsByte_cons (x c : ascii) (s : string) :
  gostrings.ContainsByte (String x s) c
  = Ascii.eqb x c || gostrings.ContainsByte s c.
Proof.
  unfold gostrings.ContainsByte. cbn [gostrings.IndexByte].
  destruct (Ascii.eqb x c); [reflexivity |].
  now destruct (gostrings.IndexByte s c).
Qed.

Lemma ContainsByte_app (a b : string) (c : ascii) :
  gostrings.ContainsByte (a +:+ b) c
  = gostrings.ContainsByte a c || gostrings.ContainsByte b c.
Proof.
  induction a as [|x a IH].
  - reflexivity.
  - rewrite append_cons, !ContainsByte_cons, IH. apply orb_assoc.
Qed.

Lemma HasPrefix_trans (s p q : string) :
  gostrings.HasPrefix s p = true -> gostrings.HasPrefix p q = true ->
  gostrings.HasPrefix s q = true.
Proof.
  intros [r ->]%HasPrefix_true [t ->]%HasPrefix_true.
  rewrite append_assoc. apply HasPrefix_app.
Qed.

(** ** More on the director *)

Lemma mergeQuery_director c req :
  url.RawQuery (http.URL (director c req).2)
  = mergeQuery (targetQuery c) (url.RawQuery (http.URL req)).
Proof. apply director_RawQuery. Qed.

Lemma mergeQuery_empty_l (q : string) : mergeQuery "" q = q.
Proof. reflexivity. Qed.

Lemma mergeQuery_empty_r (q : string) : mergeQuery q "" = q.
Proof.
  unfold mergeQuery. rewrite String.eqb_refl, orb_true_r. apply app_empty_r.
Qed.

Lemma mergeQuery_nonempty (a b : string) :
  a <> "" -> b <> "" -> mergeQuery a b = a +:+ "&" +:+ b.
Proof. intros Ha Hb. unfold mergeQuery. now rewrite !eqb_empty_false. Qed.

Lemma mergeQuery_empty_inv (a b : string) :
  mergeQuery a b = "" <-> a = "" /\ b = "".
Proof.
  split; [|now intros [-> ->]].
  unfold mergeQuery. destruct (_ || _).
  - apply append_empty_inv.
  - intros [_ H]%append_empty_inv. discriminate.
Qed.

Lemma mergeQuery_assoc (a b c : string) :
  mergeQuery (mergeQuery a b) c = mergeQuery a (mergeQuery b c).
Proof.
  destruct (String.eqb_spec a "") as [->|Ha];
    [now rewrite !mergeQuery_empty_l |].
  destruct (String.eqb_spec b "") as [->|Hb];
    [now rewrite mergeQuery_empty_l, mergeQuery_empty_r |].
  destruct (String.eqb_spec c "") as [->|Hc];
    [now rewrite !mergeQuery_empty_r |].
  assert (Hab : mergeQuery a b <> "")
    by (intros [? _]%mergeQuery_empty_inv; contradiction).
  assert (Hbc : mergeQuery b c <> "")
    by (intros [? _]%mergeQuery_empty_inv; contradiction).
  rewrite (mergeQuery_nonempty _ c Hab Hc), (mergeQuery_nonempty a _ Ha Hbc).
  rewrite (mergeQuery_nonempty a b Ha Hb), (mergeQuery_nonempty b c Hb Hc).
  now rewrite !append_assoc.
Qed.

(** X1. A request rewritten by two directors in a row, as when one
    gateway stands behind another, carries the second backend's query,
    then the first backend's, then the inbound one, joined by ["&"] with
    no separator next to an empty part: the same query as one director
    whose static query is the merge of the two. *)
Theorem chained_query_merge (c1 c2 : directorClosure) (req : http.Request) :
  let q := url.RawQuery (http.URL (director c2 (director c1 req).2).2) in
  let iq := url.RawQuery (http.URL req) in
  q = mergeQuery (mergeQuery (targetQuery c2) (targetQuery c1)) iq
  /\ q = url.RawQuery
           (http.URL
              (director
                 (mkDirector (basePath c1) (target c1)
                    (mergeQuery (targetQuery c2) (targetQuery c1)))
                 req).2)
  /\ (targetQuery c1 <> "" -> targetQuery c2 <> "" -> iq <> "" ->
      q = targetQuery c2 +:+ "&" +:+ targetQuery c1 +:+ "&" +:+ iq)
  /\ (q = "" <-> targetQuery c1 = "" /\ targetQuery c2 = "" /\ iq = "").
Proof.
  cbv zeta. rewrite !mergeQuery_director. simpl targetQuery.
  rewrite <- mergeQuery_assoc.
  split; [reflexivity |]. split; [reflexivity |]. split.
  - intros H1 H2 Hi.
    rewrite (mergeQuery_nonempty _ _ H2 H1).
    rewrite mergeQuery_nonempty; [now rewrite !append_assoc | | exact Hi].
    now apply append_nonempty_l.
  - rewrite !mergeQuery_empty_inv. tauto.
Qed.

Lemma chained_query_merge_witness :
  url.RawQuery
    (http.URL (director edge_closure
                 (director (Director svc_proxy) svc_request).2).2)
  = "tenant=7&key=abc&page=2".
Proof.
  apply (proj1 (proj2 (proj2
           (chained_query_merge (Director svc_proxy) edge_closure
              svc_request))));
    simpl; discriminate.
Defined.

(** X2. The director writes the scheme, host, path and query of the
    request's URL and nothing else: method, headers, remote address and
    [RequestURI] stay, as do the URL's opaque part, userinfo, fragment
    and [ForceQuery]. Of the backend it uses scheme, host and query only:
    two backends that agree on these, whatever their path, userinfo or
    fragment, give the same rewritten request. *)
Theorem director_frame (c : directorClosure) (req : http.Request) :
  let out := (director c req).2 in
  (http.Method out = http.Method req
   /\ http.Header_ out = http.Header_ req
   /\ http.RemoteAddr out = http.RemoteAddr req
   /\ http.RequestURI out = http.RequestURI req
   /\ url.Opaque (http.URL out) = url.Opaque (http.URL req)
   /\ url.User (http.URL out) = url.User (http.URL req)
   /\ url.Fragment (http.URL out) = url.Fragment (http.URL req)
   /\ url.ForceQuery (http.URL out) = url.ForceQuery (http.URL req))
  /\ (forall c',
        basePath c' = basePath c ->
        targetQuery c' = targetQuery c ->
        url.Scheme (target c') = url.Scheme (target c) ->
        url.Host (target c') = url.Host (target c) ->
        (director c' req).2 = out).
Proof.
  cbv zeta. split.
  - unfold director; simpl. destruct (_ || _); repeat split.
  - intros c' Hb Hq Hs Hh. unfold director; simpl.
    now rewrite Hb, Hq, Hs, Hh.
Qed.

Lemma director_frame_witness :
  (director svc_closure_other_path svc_request).2
  = (director (Director svc_proxy) svc_request).2
  /\ url.Path (http.URL (director svc_closure_other_path svc_request).2)
     = "/items".
Proof.
  split; [|reflexivity].
  apply (proj2 (director_frame (Director svc_proxy) svc_request));
    reflexivity.
Defined.

(** ** More on the route table *)

Lemma prefix_split (N rest : string) :
  ("/" +:+ N +:+ "/") +:+ rest = ("/" +:+ N) +:+ ("/" +:+ rest).
Proof. now rewrite !append_assoc. Qed.

Lemma HasPrefix_prefix_of (path : string) (entry : string * string) :
  gostrings.HasPrefix path (prefix_of entry) = true <->
  exists rest, path = ("/" +:+ entry.1) +:+ ("/" +:+ rest).
Proof.
  unfold prefix_of. rewrite HasPrefix_true.
  split; intros [rest ->]; exists rest;
    [apply prefix_split | symmetry; apply prefix_split].
Qed.

(** What [Router.Match] finds in the table [main] builds: the first
    entry, in the order of registration, whose prefix the path has. *)
Lemma Match_routes (order : list (string * string)) (path : string) :
  match mux.Match (map route_of order) path with
  | Some rt =>
      exists pre entry post,
        order = (pre ++ entry :: post)%list
        /\ rt = route_of entry
        /\ gostrings.HasPrefix path (prefix_of entry) = true
        /\ Forall (fun entry' =>
                    gostrings.HasPrefix path (prefix_of entry') = false) pre
  | None =>
      Forall (fun entry => gostrings.HasPrefix path (prefix_of entry) = false)
        order
  end.
Proof.
  induction order as [|entry order IH]; simpl; [constructor |].
  unfold mux.Route_Match at 1. simpl mux.template. fold (prefix_of entry).
  destruct (gostrings.HasPrefix path (prefix_of entry)) eqn:Hentry.
  - exists [], entry, order. repeat split; [exact Hentry | constructor].
  - destruct (mux.Match (map route_of order) path) as [rt|].
    + destruct IH as (pre & entry' & post & -> & -> & Hmatch & Hpre).
      exists (entry :: pre), entry', post.
      repeat split; [exact Hmatch | now constructor].
    + now constructor.
Qed.

Lemma main_parses order r entry :
  main order = Ok r -> entry ∈ order ->
  url.Parse entry.2 = Ok (backend_of entry.2).
Proof.
  intros [Hall _]%main_Ok Hin. rewrite Forall_forall in Hall. now apply Hall.
Qed.

Lemma slash_free_cons (x : ascii) (s : string) :
  slash_free (String x s) = true <-> x <> "/"%char /\ slash_free s = true.
Proof.
  unfold slash_free. rewrite ContainsByte_cons, negb_orb, andb_true_iff.
  rewrite negb_true_iff. now rewrite Ascii.eqb_neq.
Qed.

Lemma slash_free_app (a b : string) :
  slash_free (a +:+ "/" +:+ b) = false.
Proof.
  unfold slash_free. rewrite ContainsByte_app, append_cons, ContainsByte_cons.
  simpl. now rewrite orb_true_r.
Qed.

(** Two one-segment names followed by a slash at the head of the same
    string are the same name. *)
Lemma slash_free_unique (N N' rest rest' : string) :
  slash_free N = true -> slash_free N' = true ->
  N +:+ "/" +:+ rest = N' +:+ "/" +:+ rest' ->
  N = N'.
Proof.
  revert N'. induction N as [|x N IH]; intros [|y N'] HN HN' Heq.
  - reflexivity.
  - apply slash_free_cons in HN' as [Hy _].
    rewrite append_cons in Heq. injection Heq as Hxy _. congruence.
  - apply slash_free_cons in HN as [Hx _].
    rewrite append_cons in Heq. injection Heq as Hxy _. congruence.
  - apply slash_free_cons in HN as [_ HN].
    apply slash_free_cons in HN' as [_ HN'].
    rewrite !append_cons in Heq. injection Heq as -> Heq.
    f_equal. now apply IH.
Qed.

Lemma prefix_of_unique (path : string) (e e' : string * string) :
  slash_free e.1 = true -> slash_free e'.1 = true ->
  gostrings.HasPrefix path (prefix_of e) = true ->
  gostrings.HasPrefix path (prefix_of e') = true ->
  e.1 = e'.1.
Proof.
  intros He He' [rest ->]%HasPrefix_prefix_of [rest' Heq]%HasPrefix_prefix_of.
  rewrite !append_assoc, !append_cons in Heq. injection Heq as Heq.
  now apply (slash_free_unique _ _ rest rest').
Qed.

Lemma range_of_functional (m : gmap string string) order e e' :
  range_of m order -> e ∈ order -> e' ∈ order -> e.1 = e'.1 -> e = e'.
Proof.
  intros Hrange He He' Heq. destruct e as [N u], e' as [N' u'].
  simpl in Heq. subst N'.
  apply (range_of_lookup _ _ _ _ Hrange) in He, He'. congruence.
Qed.

(** X3. Whatever the gateway forwards was routed: if a request is
    forwarded at all, its path is in canonical form and is ["/" + N + "/"
    + rest] for a configured route [N], and what is sent on has path
    ["/" + rest], the scheme and host of the backend of [N], and the
    backend's query merged with the inbound one. The path of the
    backend URL is not part of the outbound path. (Route names without
    braces.) *)
Theorem forwarded_by_route order r req out :
  main order = Ok r ->
  Forall (fun entry => mux.literal entry.1 = true) order ->
  forwarded r req = Some out ->
  exists N u backend rest,
    (N, u) ∈ order
    /\ url.Parse u = Ok backend
    /\ mux.cleanPath (url.Path (http.URL req)) = url.Path (http.URL req)
    /\ url.Path (http.URL req) = "/" +:+ N +:+ "/" +:+ rest
    /\ url.Path (http.URL out) = "/" +:+ rest
    /\ url.Scheme (http.URL out) = url.Scheme backend
    /\ url.Host (http.URL out) = url.Host backend
    /\ url.RawQuery (http.URL out)
       = mergeQuery (url.RawQuery backend) (url.RawQuery (http.URL req)).
Proof.
  intros Hmain _ Hfwd. pose proof (main_Ok _ _ Hmain) as [_ ->].
  unfold forwarded, mux.ServeHTTP in Hfwd.
  destruct (String.eqb (mux.cleanPath _) _) eqn:Hclean; [|discriminate].
  apply String.eqb_eq in Hclean. simpl in Hfwd.
  pose proof (Match_routes order (url.Path (http.URL req))) as HM.
  destruct (mux.Match _ _) as [rt|]; [|discriminate].
  destruct HM as (pre & [N u] & post & -> & -> & Hmatch & _).
  injection Hfwd as <-.
  assert (Hin : (N, u) ∈ (pre ++ (N, u) :: post)%list).
  { apply list_elem_of_In, in_or_app. right. now left. }
  apply HasPrefix_prefix_of in Hmatch as [rest Hpath]. simpl in Hpath.
  exists N, u, (backend_of u), rest.
  split; [exact Hin |].
  split; [exact (main_parses _ _ _ Hmain Hin) |].
  split; [exact Hclean |].
  split; [now rewrite Hpath, append_assoc |].
  unfold rewrite.
  rewrite director_Path, director_Scheme, director_Host, mergeQuery_director.
  simpl. rewrite Hpath, TrimPrefix_app. repeat split.
Qed.

Lemma forwarded_by_route_witness :
  exists N u backend rest,
    (N, u) ∈ [("svc", svc_url)]
    /\ url.Parse u = Ok backend
    /\ mux.cleanPath "/svc/items" = "/svc/items"
    /\ "/svc/items" = "/" +:+ N +:+ "/" +:+ rest
    /\ url.Path (http.URL (rewrite svc_proxy svc_request)) = "/" +:+ rest
    /\ url.Scheme (http.URL (rewrite svc_proxy svc_request))
       = url.Scheme backend
    /\ url.Host (http.URL (rewrite svc_proxy svc_request)) = url.Host backend
    /\ url.RawQuery (http.URL (rewrite svc_proxy svc_request))
       = mergeQuery (url.RawQuery backend) "page=2".
Proof.
  apply (forwarded_by_route [("svc", svc_url)] [route_of ("svc", svc_url)]
           svc_request (rewrite svc_proxy svc_request));
    [vm_compute; reflexivity | repeat constructor | vm_compute; reflexivity].
Defined.

(** X4. The bare name of a route is not proxied: a request for
    ["/" + N], with no slash after a one-segment [N], is never forwarded,
    whatever the configuration. *)
Theorem bare_name_not_forwarded order r N req :
  main order = Ok r ->
  slash_free N = true ->
  url.Path (http.URL req) = "/" +:+ N ->
  forwarded r req = None.
Proof.
  intros [_ ->]%main_Ok HN Hpath. unfold forwarded, mux.ServeHTTP.
  destruct (String.eqb (mux.cleanPath _) _); [|reflexivity]. simpl.
  pose proof (Match_routes order (url.Path (http.URL req))) as HM.
  destruct (mux.Match _ _) as [rt|]; [|reflexivity].
  destruct HM as (_ & [N' u'] & _ & _ & _ & Hmatch & _).
  apply HasPrefix_prefix_of in Hmatch as [rest Heq]. simpl in Heq.
  rewrite Hpath, append_assoc, !append_cons in Heq. injection Heq as Heq.
  change (N = N' +:+ "/" +:+ rest) in Heq.
  rewrite Heq, slash_free_app in HN. discriminate.
Qed.

Lemma bare_name_not_forwarded_witness :
  forwarded [route_of ("svc", svc_url)]
    (http.mkRequest "GET" (url.mkURL "" "" None "" "/svc" false "" "")
       ∅ "192.0.2.1:4000" "/svc")
  = None.
Proof.
  apply (bare_name_not_forwarded [("svc", svc_url)] _ "svc");
    vm_compute; reflexivity.
Defined.

Lemma ServeHTTP_routes (order : list (string * string)) (path : string) :
  mux.ServeHTTP (map route_of order) path
  = if negb (String.eqb (mux.cleanPath path) path)
    then mux.Redirect (mux.cleanPath path)
    else match mux.Match (map route_of order) path with
         | Some rt => mux.Dispatch (mux.handler rt)
         | None => mux.NotFound
         end.
Proof. reflexivity. Qed.

(** X5. The order in which Go walks the configuration map decides
    neither whether the gateway starts nor, for route names without
    braces and a path that begins with the prefix of at most one
    configured route, who serves it. *)
Theorem dispatch_order_independent cfg order1 order2 :
  range_of (Routes cfg) order1 ->
  range_of (Routes cfg) order2 ->
  ((exists e, main order1 = Err e) <-> (exists e, main order2 = Err e))
  /\ (forall r1 r2 path,
        main order1 = Ok r1 ->
        main order2 = Ok r2 ->
        Forall (fun entry => mux.literal entry.1 = true) order1 ->
        (forall N N' u u',
            Routes cfg !! N = Some u -> Routes cfg !! N' = Some u' ->
            gostrings.HasPrefix path (prefix_of (N, u)) = true ->
            gostrings.HasPrefix path (prefix_of (N', u')) = true ->
            N = N') ->
        mux.ServeHTTP r1 path = mux.ServeHTTP r2 path).
Proof.
  intros H1 H2.
  assert (Hsame : forall entry, entry ∈ order1 <-> entry ∈ order2).
  { intros [N u]. now rewrite (range_of_lookup _ _ N u H1),
                              (range_of_lookup _ _ N u H2). }
  assert (Hfail : forall o o',
             (forall entry, entry ∈ o <-> entry ∈ o') ->
             (exists e, main o = Err e) -> exists e, main o' = Err e).
  { intros o o' Hoo' [e He]. apply main_Err in He.
    apply Exists_exists in He as (entry & Hin & Hparse).
    destruct (main o') as [r'|e'] eqn:Hmain'; [|eauto].
    apply Hoo' in Hin.
    pose proof (main_parses _ _ _ Hmain' Hin). congruence. }
  split.
  - split; apply Hfail; [exact Hsame | intros entry; symmetry; apply Hsame].
  - intros r1 r2 path [_ ->]%main_Ok [_ ->]%main_Ok _ Huniq.
    rewrite !ServeHTTP_routes. destruct (negb _); [reflexivity |].
    pose proof (Match_routes order1 path) as HM1.
    pose proof (Match_routes order2 path) as HM2.
    destruct (mux.Match (map route_of order1) path) as [rt1|],
             (mux.Match (map route_of order2) path) as [rt2|].
    + destruct HM1 as (pre1 & e1 & post1 & Ho1 & -> & Hm1 & _).
      destruct HM2 as (pre2 & e2 & post2 & Ho2 & -> & Hm2 & _).
      assert (Hin1 : e1 ∈ order1)
        by (rewrite Ho1; apply list_elem_of_In, in_or_app; right; now left).
      assert (Hin2 : e2 ∈ order2)
        by (rewrite Ho2; apply list_elem_of_In, in_or_app; right; now left).
      apply Hsame in Hin1.
      enough (e1 = e2) as -> by reflexivity.
      apply (range_of_functional _ _ _ _ H2 Hin1 Hin2).
      destruct e1 as [N u], e2 as [N' u']. simpl.
      apply (Huniq N N' u u'); try assumption;
        now apply (range_of_lookup _ _ _ _ H2).
    + destruct HM1 as (pre1 & e1 & post1 & Ho1 & -> & Hm1 & _).
      assert (Hin1 : e1 ∈ order1)
        by (rewrite Ho1; apply list_elem_of_In, in_or_app; right; now left).
      apply Hsame in Hin1. rewrite Forall_forall in HM2.
      rewrite (HM2 _ Hin1) in Hm1. discriminate.
    + destruct HM2 as (pre2 & e2 & post2 & Ho2 & -> & Hm2 & _).
      assert (Hin2 : e2 ∈ order2)
        by (rewrite Ho2; apply list_elem_of_In, in_or_app; right; now left).
      apply Hsame in Hin2. rewrite Forall_forall in HM1.
      rewrite (HM1 _ Hin2) in Hm2. discriminate.
    + reflexivity.
Qed.

Lemma flat_orders :
  range_of (Routes flat_config) flat_order
  /\ range_of (Routes flat_config) flat_order'.
Proof.
  assert (H' : range_of (Routes flat_config) flat_order').
  { unfold range_of, flat_config, flat_order'; simpl.
    rewrite !map_to_list_insert by reflexivity.
    now rewrite map_to_list_empty. }
  split; [|exact H'].
  unfold range_of in *. rewrite <- H'. apply Permutation_swap.
Qed.

Lemma dispatch_order_independent_witness :
  mux.ServeHTTP (map route_of flat_order) "/api/foo"
  = mux.ServeHTTP (map route_of flat_order') "/api/foo".
Proof.
  apply (proj2 (dispatch_order_independent flat_config flat_order flat_order'
                  (proj1 flat_orders) (proj2 flat_orders)));
    [vm_compute; reflexivity | vm_compute; reflexivity
    | repeat constructor |].
  intros N N' u u' HN HN' Hp Hp'.
  apply (prefix_of_unique "/api/foo" (N, u) (N', u')); try assumption.
  - unfold flat_config in HN; simpl in HN.
    apply lookup_insert_Some in HN as [[<- _]|[_ HN]]; [reflexivity |].
    apply lookup_insert_Some in HN as [[<- _]|[_ HN]]; [reflexivity |].
    now rewrite lookup_empty in HN.
  - unfold flat_config in HN'; simpl in HN'.
    apply lookup_insert_Some in HN' as [[<- _]|[_ HN']]; [reflexivity |].
    apply lookup_insert_Some in HN' as [[<- _]|[_ HN']]; [reflexivity |].
    now rewrite lookup_empty in HN'.
Defined.

(** X6. When every route name is a single path segment (no ["/"], and no
    braces), a request goes to the forwarder of route [N] exactly when
    its path is in canonical form and begins with ["/" + N + "/"], in
    whatever order the routes were registered. *)
Theorem flat_names_dispatch cfg order r N u proxy path :
  range_of (Routes cfg) order ->
  main order = Ok r ->
  Forall (fun entry => slash_free entry.1 = true) order ->
  Forall (fun entry => mux.literal entry.1 = true) order ->
  Routes cfg !! N = Some u ->
  NewRewriteReverseProxy ("/" +:+ N) u = Ok proxy ->
  (mux.ServeHTTP r path = mux.Dispatch proxy
   <-> mux.cleanPath path = path
       /\ gostrings.HasPrefix path ("/" +:+ N +:+ "/") = true).
Proof.
  intros Hrange [_ ->]%main_Ok Hflat _ HN ->%proxy_of_built.
  apply (range_of_lookup _ _ _ _ Hrange) in HN.
  rewrite Forall_forall in Hflat.
  rewrite ServeHTTP_routes.
  destruct (String.eqb (mux.cleanPath path) path) eqn:Hclean; simpl.
  - apply String.eqb_eq in Hclean.
    pose proof (Match_routes order path) as HM.
    destruct (mux.Match _ path) as [rt|].
    + destruct HM as (pre & e & post & Ho & -> & Hm & _).
      assert (Hin : e ∈ order)
        by (rewrite Ho; apply list_elem_of_In, in_or_app; right; now left).
      split.
      * intros Hd.
        assert (Heq : proxy_of e = proxy_of (N, u))
          by (simpl in Hd; congruence).
        apply proxy_of_name in Heq. simpl in Heq.
        split; [exact Hclean |].
        unfold prefix_of in Hm. now rewrite Heq in Hm.
      * intros [_ Hpre]. f_equal. simpl. f_equal.
        apply (range_of_functional _ _ _ _ Hrange Hin HN).
        apply (prefix_of_unique path e (N, u));
          [now apply Hflat | now apply (Hflat (N, u)) | exact Hm |
           exact Hpre].
    + split; [discriminate |]. intros [_ Hpre].
      rewrite Forall_forall in HM.
      pose proof (HM _ HN) as Hnone. unfold prefix_of in Hnone.
      simpl in Hnone. congruence.
  - apply String.eqb_neq in Hclean. split; [discriminate |].
    now intros [Hcanon _].
Qed.

Lemma flat_names_dispatch_witness :
  mux.ServeHTTP (map route_of flat_order) "/api/foo"
  = mux.Dispatch (proxy_of ("api", "http://one.local"))
  /\ mux.ServeHTTP (map route_of flat_order) "/apikey/foo"
     <> mux.Dispatch (proxy_of ("api", "http://one.local")).
Proof.
  assert (Hiff : forall path,
             mux.ServeHTTP (map route_of flat_order) path
             = mux.Dispatch (proxy_of ("api", "http://one.local"))
             <-> mux.cleanPath path = path
                 /\ gostrings.HasPrefix path "/api/" = true).
  { intros path.
    apply (flat_names_dispatch flat_config flat_order _ "api"
             "http://one.local" _ path (proj1 flat_orders));
      [vm_compute; reflexivity | repeat constructor | repeat constructor
      | reflexivity | vm_compute; reflexivity]. }
  split.
  - apply Hiff. split; vm_compute; reflexivity.
  - intros [_ Hpre]%Hiff. vm_compute in Hpre. discriminate Hpre.
Defined.

(** X7. A route whose name is the name of a route registered before it,
    followed by a slash and more, is dead: no request reaches its
    forwarder, since every path with its prefix has the prefix of the
    earlier route. (Route names without braces.) *)
Theorem nested_route_unreachable cfg order r pre N u mid s u' post proxy path :
  range_of (Routes cfg) order ->
  main order = Ok r ->
  order = (pre ++ (N, u) :: mid ++ (N +:+ "/" +:+ s, u') :: post)%list ->
  Forall (fun entry => mux.literal entry.1 = true) order ->
  NewRewriteReverseProxy ("/" +:+ N +:+ "/" +:+ s) u' = Ok proxy ->
  mux.ServeHTTP r path <> mux.Dispatch proxy.
Proof.
  intros Hrange [_ ->]%main_Ok Horder _ Hnew Hd.
  apply (proxy_of_built (N +:+ "/" +:+ s)) in Hnew as ->.
  rewrite ServeHTTP_routes in Hd.
  destruct (negb _); [discriminate |].
  pose proof (Match_routes order path) as HM.
  destruct (mux.Match _ path) as [rt|]; [|discriminate].
  destruct HM as (pre0 & e & post0 & Ho & -> & Hm & Hpre0).
  assert (Heq : proxy_of e = proxy_of (N +:+ "/" +:+ s, u'))
    by (simpl in Hd; congruence).
  apply proxy_of_name in Heq. simpl in Heq.
  assert (Hsplit : pre0 = (pre ++ (N, u) :: mid)%list).
  { apply (split_unique pre0 _ post0 post e (N +:+ "/" +:+ s, u')).
    - rewrite <- Ho. now apply (range_of_NoDup (Routes cfg)).
    - rewrite <- Ho, Horder, <- app_assoc. reflexivity.
    - exact Heq. }
  subst pre0. apply Forall_app in Hpre0 as [_ Hmid].
  apply Forall_cons in Hmid as [HN _].
  apply HasPrefix_prefix_of in Hm as [rest Hpath]. rewrite Heq in Hpath.
  assert (Hyes : gostrings.HasPrefix path (prefix_of (N, u)) = true).
  { apply HasPrefix_prefix_of. exists (s +:+ "/" +:+ rest).
    rewrite Hpath. simpl. now rewrite !append_assoc. }
  congruence.
Qed.

Lemma nested_route_unreachable_witness :
  mux.ServeHTTP (map route_of nested_order) "/a/b/c"
  <> mux.Dispatch (proxy_of ("a/b", "http://two.local")).
Proof.
  apply (nested_route_unreachable nested_config nested_order _ [] "a"
           "http://one.local" [] "b" "http://two.local" []).
  - unfold range_of, nested_config, nested_order; simpl.
    rewrite !map_to_list_insert by reflexivity.
    now rewrite map_to_list_empty.
  - vm_compute; reflexivity.
  - reflexivity.
  - repeat constructor.
  - vm_compute; reflexivity.
Defined.

Lemma prefix_of_inj (e e' : string * string) :
  prefix_of e = prefix_of e' -> e.1 = e'.1.
Proof.
  unfold prefix_of. rewrite !append_cons. intros [= H].
  change (e.1 +:+ "/" = e'.1 +:+ "/") in H.
  now apply append_inv_tail in H.
Qed.

Lemma NoDup_map_names {B : Type} (f : string * string -> B)
    (order : list (string * string)) :
  (forall e e', f e = f e' -> e.1 = e'.1) ->
  NoDup (map fst order) -> NoDup (map f order).
Proof.
  intros Hf. induction order as [|e order IH]; simpl; [constructor |].
  rewrite !NoDup_cons. intros [Hnotin Hnd]. split; [|now apply IH].
  intros Hin. apply Hnotin.
  apply list_elem_of_In, in_map_iff in Hin as (e' & Heq & Hin).
  apply list_elem_of_In, in_map_iff. exists e'.
  split; [now apply Hf | exact Hin].
Qed.

(** X8. The table [main] serves has one route per entry of the
    configuration, no two routes with the same prefix or the same base
    path, and every route's prefix is its forwarder's base path followed
    by a slash. *)
Theorem routes_distinct cfg order r :
  range_of (Routes cfg) order ->
  main order = Ok r ->
  length r = size (Routes cfg)
  /\ NoDup (map mux.template r)
  /\ NoDup (map (fun rt => basePath (Director (mux.handler rt))) r)
  /\ Forall (fun rt =>
              mux.template rt
              = basePath (Director (mux.handler rt)) +:+ "/") r.
Proof.
  intros Hrange [_ ->]%main_Ok.
  pose proof (range_of_NoDup _ _ Hrange) as Hnd.
  split; [|split; [|split]].
  - rewrite length_map. unfold range_of in Hrange. rewrite Hrange.
    apply length_map_to_list.
  - rewrite map_map. apply NoDup_map_names; [|exact Hnd].
    intros e e'. apply prefix_of_inj.
  - rewrite map_map. apply NoDup_map_names; [|exact Hnd].
    intros e e'. simpl. now intros [= H].
  - apply Forall_map, Forall_forall. intros e _. simpl.
    now rewrite append_assoc.
Qed.

Lemma routes_distinct_witness :
  NoDup (map mux.template (map route_of nested_order))
  /\ length (map route_of nested_order) = 2.
Proof.
  assert (Hrange : range_of (Routes nested_config) nested_order).
  { unfold range_of, nested_config, nested_order; simpl.
    rewrite !map_to_list_insert by reflexivity.
    now rewrite map_to_list_empty. }
  destruct (routes_distinct nested_config nested_order
              (map route_of nested_order) Hrange)
    as (_ & Hnd & _); [vm_compute; reflexivity |].
  split; [exact Hnd | reflexivity].
Defined.

Lemma main_loop_first_error (pre post : list (string * string)) N u e :
  Forall (fun entry => exists backend, url.Parse entry.2 = Ok backend) pre ->
  url.Parse u = Err e ->
  forall r, main_loop r (pre ++ (N, u) :: post) = Err e.
Proof.
  intros Hpre Hu. induction Hpre as [|[N' u'] pre [b Hb] _ IH]; intros r.
  - simpl. unfold NewRewriteReverseProxy. now rewrite Hu.
  - simpl. unfold NewRewriteReverseProxy. simpl in Hb. rewrite Hb.
    apply IH.
Qed.

(** X9. Start-up stops at the first bad entry: when the backend URLs of
    the entries visited so far parse and the next one does not, [main]
    exits with the parse error of that entry, whatever follows it. *)
Theorem first_parse_error_reported (pre post : list (string * string)) N u e :
  Forall (fun entry => exists backend, url.Parse entry.2 = Ok backend) pre ->
  url.Parse u = Err e ->
  main (pre ++ (N, u) :: post) = Err e
  /\ forall post', main (pre ++ (N, u) :: post') = Err e.
Proof.
  intros Hpre Hu. split; [|intros post'];
    now apply main_loop_first_error.
Qed.

Lemma first_parse_error_reported_witness :
  main failing_order = Err url.MissingProtocolScheme.
Proof.
  apply (first_parse_error_reported [("a", "http://one.local")]
           [("c", ":8000")] "b" ":9000" url.MissingProtocolScheme).
  - repeat constructor. eexists. vm_compute. reflexivity.
  - vm_compute; reflexivity.
Defined.

(** ** More on the access log *)

(** What the middleware does, in terms of the handler run against the
    writer the middleware was given. *)
Lemma NewLogrusHandler_run {W : Type} `{!http.ResponseWriter W}
    (handler : Handler) (rw : W) (r : http.Request) (σ : World) :
  NewLogrusHandler handler rw r σ
  = match exec (handler r) rw σ with
    | Returned (rw', σ') =>
        Returned
          (rw',
           mkWorld (now σ')
             (sink σ'
              ++ [access_entry r
                    (List.last (statusCodes (handler r) rw) 200%Z)
                    (now σ' - now σ)]))
    | Panicked v => Panicked v
    end.
Proof.
  unfold NewLogrusHandler, NewStatusLoggingResponseWriter.
  rewrite exec_capture.
  destruct (exec (handler r) rw σ) as [[rw' σ']|v]; [|reflexivity].
  unfold access_entry, logrus.Info, logrus.WithFields, logrus.WithField.
  simpl. now destruct (negb _).
Qed.

Lemma access_entry_status (r : http.Request) (st latency : Z) :
  logrus.Data (access_entry r st latency) !! "status"
  = Some (logrus.VInt st)
  /\ logrus.Data (access_entry r st latency) !! "text_status"
     = Some (logrus.VString (http.StatusText st)).
Proof.
  unfold access_entry; simpl. destruct (negb _); split; by simplify_map_eq.
Qed.

Lemma access_entry_request_id (r : http.Request) (st latency : Z) :
  logrus.Data (access_entry r st latency) !! "request_id"
  = match http.Header_ r !! "X-Request-Id" with
    | Some (v :: _) =>
        if String.eqb v "" then None else Some (logrus.VString v)
    | _ => None
    end.
Proof.
  unfold access_entry, http.Get; simpl.
  destruct (http.Header_ r !! "X-Request-Id") as [[|v vs]|]; simpl;
    try (by simplify_map_eq).
  destruct (String.eqb v ""); simpl; by simplify_map_eq.
Qed.

(** X10. For a handler that uses the writer through [Header], [Write]
    and [WriteHeader] only (no type assertion to an optional interface
    such as [http.Flusher], which the capturing writer hides), the
    logging middleware is transparent to the response: the writer it was
    given ends as it would had the handler been called without the
    middleware, the clock reads the same, and the sink holds what the
    handler logged plus one record. When the handler panics, so does
    the middleware, with the same value: it does not recover. *)
Theorem logging_transparent {W : Type} `{!http.ResponseWriter W}
    (handler : Handler) (rw : W) (r : http.Request) (σ : World) :
  (forall rw' σ',
      exec (handler r) rw σ = Returned (rw', σ') ->
      exists entry,
        NewLogrusHandler handler rw r σ
        = Returned (rw', mkWorld (now σ') (sink σ' ++ [entry])))
  /\ (forall rw'' σ'',
        NewLogrusHandler handler rw r σ = Returned (rw'', σ'') ->
        exists σ' entry,
          exec (handler r) rw σ = Returned (rw'', σ')
          /\ now σ'' = now σ'
          /\ sink σ'' = (sink σ' ++ [entry])%list)
  /\ (forall v,
        exec (handler r) rw σ = Panicked v <->
        NewLogrusHandler handler rw r σ = Panicked v).
Proof.
  rewrite NewLogrusHandler_run.
  destruct (exec (handler r) rw σ) as [[rw1 σ1]|v1].
  - split; [|split].
    + intros rw' σ' [= <- <-]. eauto.
    + intros rw'' σ'' [= <- <-]. do 2 eexists. repeat split.
    + intros v. split; discriminate.
  - split; [|split]; try discriminate.
    intros v. split; intros [= <-]; reflexivity.
Qed.

Lemma logging_transparent_witness :
  exists entry,
    NewLogrusHandler (fun _ => body_handler) fresh_recorder svc_request world0
    = Returned
        (mkRecorder {["Content-Type" := ["text/plain"]]} [Wrote "hello"],
         mkWorld 1005 [entry]).
Proof.
  apply (proj1 (logging_transparent (fun _ => body_handler) fresh_recorder
                  svc_request world0)
           (mkRecorder {["Content-Type" := ["text/plain"]]} [Wrote "hello"])
           (mkWorld 1005 [])).
  vm_compute; reflexivity.
Defined.

(** X11. The status in the access-log record is the last code the
    handler passed to [WriteHeader], and 200 with text [OK] when it
    passed none; the text is that of the logged code. *)
Theorem logged_status {W : Type} `{!http.ResponseWriter W}
    (handler : Handler) (rw rw' : W) (r : http.Request) (σ σ' : World) :
  NewLogrusHandler handler rw r σ = Returned (rw', σ') ->
  exists earlier entry,
    sink σ' = (earlier ++ [entry])%list
    /\ let st := List.last (statusCodes (handler r) rw) 200%Z in
       logrus.Data entry !! "status" = Some (logrus.VInt st)
       /\ logrus.Data entry !! "text_status"
          = Some (logrus.VString (http.StatusText st))
       /\ (statusCodes (handler r) rw = [] ->
           logrus.Data entry !! "status" = Some (logrus.VInt 200)
           /\ logrus.Data entry !! "text_status"
              = Some (logrus.VString "OK")).
Proof.
  rewrite NewLogrusHandler_run.
  destruct (exec (handler r) rw σ) as [[rw1 σ1]|v1]; [|discriminate].
  intros [= <- <-]. do 2 eexists. split; [reflexivity |].
  cbv zeta.
  pose proof (access_entry_status r
                (List.last (statusCodes (handler r) rw) 200%Z)
                (now σ1 - now σ)) as [Hst Htxt].
  split; [exact Hst |]. split; [exact Htxt |].
  intros Hnone. rewrite Hnone in Hst, Htxt |- *. now split.
Qed.

Lemma logged_status_witness :
  exists earlier entry,
    [access_entry traced_request 500 0] = (earlier ++ [entry])%list
    /\ logrus.Data entry !! "status" = Some (logrus.VInt 500)
    /\ logrus.Data entry !! "text_status"
       = Some (logrus.VString "Internal Server Error").
Proof.
  destruct (logged_status (fun _ => twice_handler) fresh_recorder
              (mkRecorder ∅
                 [WroteHeader 404; WroteHeader 500; Wrote "not found"])
              traced_request world0
              (mkWorld 1000 [access_entry traced_request 500 0]))
    as (earlier & entry & Hsink & Hst & Htxt & _);
    [vm_compute; reflexivity |].
  exists earlier, entry. repeat split; assumption.
Defined.

(** X12. The record has a request id exactly when the request has an
    [X-Request-Id] header whose first value is not empty, and the id is
    that first value: no header, a header without values, or an empty
    first value give no field, whatever further values follow. *)
Theorem request_id_field {W : Type} `{!http.ResponseWriter W}
    (handler : Handler) (rw rw' : W) (r : http.Request) (σ σ' : World) :
  NewLogrusHandler handler rw r σ = Returned (rw', σ') ->
  exists earlier entry,
    sink σ' = (earlier ++ [entry])%list
    /\ logrus.Data entry !! "request_id"
       = match http.Header_ r !! "X-Request-Id" with
         | Some (v :: _) =>
             if String.eqb v "" then None else Some (logrus.VString v)
         | _ => None
         end.
Proof.
  rewrite NewLogrusHandler_run.
  destruct (exec (handler r) rw σ) as [[rw1 σ1]|v1]; [|discriminate].
  intros [= <- <-]. do 2 eexists. split; [reflexivity |].
  apply access_entry_request_id.
Qed.

Lemma request_id_field_witness :
  exists earlier entry,
    [access_entry blank_id_request 200 5] = (earlier ++ [entry])%list
    /\ logrus.Data entry !! "request_id" = None.
Proof.
  apply (request_id_field (fun _ => body_handler) fresh_recorder
           (mkRecorder {["Content-Type" := ["text/plain"]]} [Wrote "hello"])
           blank_id_request world0
           (mkWorld 1005 [access_entry blank_id_request 200 5])).
  vm_compute; reflexivity.
Defined.
